(** * Soft Actor-Critic core ([RLLib/Agents/SAC/Core.py])

    A shallow embedding of the replay buffer, the network builders and the
    squashed-Gaussian actor, together with the properties stated for them.

    Conventions of the embedding:
    - Python integers are [Z]; list/array positions are [nat] once a Python
      index has been resolved by [py_index].
    - A Python exception is a [Raise e] result; everything that can raise
      lives in the [result] monad.
    - float32 cells are an abstract scalar type in the replay buffer (which
      only moves cells around) and the real numbers [R] in the actor (whose
      properties are the mathematical ones: rounding, overflow and NaN of the
      IEEE formats are outside the model).
    - numpy arrays and torch tensors of rank 0, 1 and 2 are nested lists. *)

From Stdlib Require Import ZArith List Reals Lra Lia.
From stdpp Require Import base option list gmap strings.

(** ** Exceptions *)

(** The exceptions the modelled code paths can raise.  [EmptyBufferError] is
    the error class named by the specification; no path of [Core.py] raises
    it. *)
Inductive py_error : Set :=
  | IndexError
  | ValueError
  | KeyError
  | RuntimeError
  | ZeroDivisionError
  | EmptyBufferError.

Inductive result (A : Type) : Type :=
  | Ok (a : A)
  | Raise (e : py_error).
Arguments Ok {A} a.
Arguments Raise {A} e.

Definition bind {A B : Type} (m : result A) (k : A -> result B) : result B :=
  match m with
  | Ok a => k a
  | Raise e => Raise e
  end.

Notation "x <- m ;; k" := (bind m (fun x => k))
  (at level 100, m at next level, right associativity).

(** [mapM] for [result]: the first exception wins, as in a Python loop. *)
Fixpoint mapM {A B : Type} (f : A -> result B) (l : list A) : result (list B) :=
  match l with
  | [] => Ok []
  | x :: l' => y <- f x ;; ys <- mapM f l' ;; Ok (y :: ys)
  end.

(** ** Shape utilities *)

(** The [shape] argument of [combined_shape]: [None], a scalar or a tuple. *)
Inductive shape_arg : Set :=
  | ShapeNone
  | ShapeScalar (n : Z)
  | ShapeTuple (dims : list Z).

Definition is_None (shape : shape_arg) : bool :=
  match shape with ShapeNone => true | _ => false end.

(** [np.isscalar]: true of numbers, false of tuples (and of [None]). *)
Definition np_isscalar (shape : shape_arg) : bool :=
  match shape with ShapeScalar _ => true | _ => false end.

(** [combined_shape(length, shape=None)], the result tuple as a list. *)
Definition combined_shape (length : Z) (shape : shape_arg) : list Z :=
  match shape with
  | ShapeNone => [length]
  | ShapeScalar n => [length; n]
  | ShapeTuple dims => length :: dims
  end.

(** ** Arrays *)

(** numpy arrays and torch tensors of rank 0, 1 and 2 over a cell type.  A
    rank-2 value is the list of its rows. *)
Inductive tensor (F : Type) : Type :=
  | T0 (x : F)
  | T1 (v : list F)
  | T2 (rows : list (list F)).
Arguments T0 {F} x.
Arguments T1 {F} v.
Arguments T2 {F} rows.

(** Leading dimension ([t.shape[0]]); a rank-0 value has none. *)
Definition leading_dim {F : Type} (t : tensor F) : option nat :=
  match t with
  | T0 _ => None
  | T1 v => Some (length v)
  | T2 rows => Some (length rows)
  end.

(** Python indexing of a sequence of [n] elements: [0 <= i < n] is position
    [i], [-n <= i < 0] counts from the end, anything else is [IndexError]. *)
Definition py_index (n : nat) (i : Z) : result nat :=
  if bool_decide (0 <= i < Z.of_nat n)%Z then Ok (Z.to_nat i)
  else if bool_decide (- Z.of_nat n <= i < 0)%Z then Ok (Z.to_nat (Z.of_nat n + i))
  else Raise IndexError.

(** Python [a % b] on integers. *)
Definition py_mod (a b : Z) : result Z :=
  if bool_decide (b = 0)%Z then Raise ZeroDivisionError else Ok (a mod b)%Z.

Section Arrays.
Context {F : Type}.

(** [a[i] = v] on a rank-1 array. *)
Definition setitem (a : list F) (i : Z) (v : F) : result (list F) :=
  k <- py_index (length a) i ;;
  Ok (<[k := v]> a).

(** Broadcasting a rank-1 value into a row of width [d]: equal widths are
    written as they are, a single cell is repeated, anything else is
    numpy's "could not broadcast" [ValueError]. *)
Definition broadcast_row (d : nat) (v : list F) : result (list F) :=
  if bool_decide (length v = d) then Ok v
  else match v with
       | [x] => Ok (replicate d x)
       | _ => Raise ValueError
       end.

(** [a[i] = v] on a rank-2 array: row [i] is overwritten by [v]. *)
Definition setitem_row (a : list (list F)) (i : Z) (v : list F)
  : result (list (list F)) :=
  k <- py_index (length a) i ;;
  match a !! k with
  | Some old => r <- broadcast_row (length old) v ;; Ok (<[k := r]> a)
  | None => Raise IndexError
  end.

(** [a[indexes]] with an integer index array: a fresh array holding the
    selected elements (rows), in the order of [indexes]. *)
Definition getitem_fancy {A : Type} (a : list A) (indexes : list Z)
  : result (list A) :=
  mapM (fun i => k <- py_index (length a) i ;;
                 match a !! k with
                 | Some x => Ok x
                 | None => Raise IndexError
                 end) indexes.
End Arrays.

(** ** Replay buffer *)

Section ReplayBuffer.
Context {F : Type}.
(** The float32 zero that [np.zeros] fills the arrays with. *)
Context (fzero : F).

(** One stored transition, as the five arguments of [store]. *)
Record transition : Type := Transition {
  t_obs : list F;
  t_act : list F;
  t_rew : F;
  t_next_obs : list F;
  t_done : F
}.

(** The attributes of a [SACReplayBuffer] instance. *)
Record SACReplayBuffer : Type := Buffer {
  obs_buf : list (list F);
  obs2_buf : list (list F);
  act_buf : list (list F);
  rew_buf : list F;
  done_buf : list F;
  ptr : Z;
  size : Z;
  max_size : Z
}.

(** [np.zeros(n, dtype=np.float32)] for an integer [n]. *)
Definition np_zeros1 (n : Z) : result (list F) :=
  if bool_decide (n < 0)%Z then Raise ValueError
  else Ok (replicate (Z.to_nat n) fzero).

(** [np.zeros(shape, dtype=np.float32)] for a two-entry shape tuple, the
    only kind [__init__] builds from integer dimensions. *)
Definition np_zeros2 (shape : list Z) : result (list (list F)) :=
  match shape with
  | [n; d] =>
      if bool_decide (n < 0 \/ d < 0)%Z then Raise ValueError
      else Ok (replicate (Z.to_nat n) (replicate (Z.to_nat d) fzero))
  | _ => Raise ValueError
  end.

(** [SACReplayBuffer.__init__(obs_dim, act_dim, size)] for integer
    dimensions. *)
Definition SACReplayBuffer_init (obs_dim act_dim size : Z)
  : result SACReplayBuffer :=
  ob <- np_zeros2 (combined_shape size (ShapeScalar obs_dim)) ;;
  ob2 <- np_zeros2 (combined_shape size (ShapeScalar obs_dim)) ;;
  ab <- np_zeros2 (combined_shape size (ShapeScalar act_dim)) ;;
  rb <- np_zeros1 size ;;
  db <- np_zeros1 size ;;
  Ok (Buffer ob ob2 ab rb db 0 0 size).

(** [SACReplayBuffer.store(obs, act, rew, next_obs, done)]: the buffer after
    the call, or the exception raised. *)
Definition store (self : SACReplayBuffer)
    (obs act : list F) (rew : F) (next_obs : list F) (done : F)
  : result SACReplayBuffer :=
  ob <- setitem_row (obs_buf self) (ptr self) obs ;;
  ob2 <- setitem_row (obs2_buf self) (ptr self) next_obs ;;
  ab <- setitem_row (act_buf self) (ptr self) act ;;
  rb <- setitem (rew_buf self) (ptr self) rew ;;
  db <- setitem (done_buf self) (ptr self) done ;;
  p <- py_mod (ptr self + 1) (max_size self) ;;
  Ok (Buffer ob ob2 ab rb db p
             (Z.min (size self + 1) (max_size self)) (max_size self)).

Definition store_transition (self : SACReplayBuffer) (t : transition)
  : result SACReplayBuffer :=
  store self (t_obs t) (t_act t) (t_rew t) (t_next_obs t) (t_done t).

(** A sequence of [store] calls, oldest first. *)
Fixpoint store_all (self : SACReplayBuffer) (ts : list transition)
  : result SACReplayBuffer :=
  match ts with
  | [] => Ok self
  | t :: ts' => b <- store_transition self t ;; store_all b ts'
  end.

(** All [k]-tuples over [vals]: the equally likely outcomes of drawing [k]
    values independently and uniformly from [vals]. *)
Fixpoint tuples (vals : list Z) (k : nat) : list (list Z) :=
  match k with
  | O => [[]]
  | S k' => x ← vals; (cons x) <$> tuples vals k'
  end.

(** [np.random.randint(low, high, size=n)] as the list of its equally likely
    outcomes (numpy: the discrete uniform distribution over [[low, high)],
    each entry drawn independently).  A negative [n] and, for [n > 0], an
    empty range raise [ValueError]; [n = 0] returns the empty array before
    the range is looked at. *)
Definition np_random_randint (low high n : Z) : result (list (list Z)) :=
  if bool_decide (n < 0)%Z then Raise ValueError
  else if bool_decide (n = 0)%Z then Ok [[]]
  else if bool_decide (high <= low)%Z then Raise ValueError
  else Ok (tuples (seqZ low (high - low)) (Z.to_nat n)).

(** The dict built by [sample_batch] for one index array; [torch.as_tensor]
    keeps the float32 cells. *)
Definition torch_as_tensor (t : tensor F) : tensor F := t.

Definition batch_of (self : SACReplayBuffer) (indexes : list Z)
  : result (gmap string (tensor F)) :=
  o <- getitem_fancy (obs_buf self) indexes ;;
  o2 <- getitem_fancy (obs2_buf self) indexes ;;
  a <- getitem_fancy (act_buf self) indexes ;;
  r <- getitem_fancy (rew_buf self) indexes ;;
  d <- getitem_fancy (done_buf self) indexes ;;
  let batch : gmap string (tensor F) :=
    <["done" := T1 d]> (<["rew" := T1 r]> (<["act" := T2 a]>
      (<["obs2" := T2 o2]> (<["obs" := T2 o]> ∅)))) in
  Ok (torch_as_tensor <$> batch).

(** [SACReplayBuffer.sample_batch(batch_size)]: the equally likely outcomes
    of the call, each a returned dict or a raised exception, paired with the
    buffer after the call (the method assigns no attribute and the gathered
    arrays are copies, so the buffer is the one it was called on). *)
Definition sample_batch (self : SACReplayBuffer) (batch_size : Z)
  : list (result (gmap string (tensor F)) * SACReplayBuffer) :=
  match np_random_randint 0 (size self) batch_size with
  | Raise e => [(Raise e, self)]
  | Ok draws => (fun indexes => (batch_of self indexes, self)) <$> draws
  end.

End ReplayBuffer.
Arguments transition F : clear implicits.
Arguments SACReplayBuffer F : clear implicits.

(** ** Python containers *)

(** [l[i]] on a list or tuple. *)
Definition py_getitem {A : Type} (l : list A) (i : Z) : result A :=
  k <- py_index (length l) i ;;
  match l !! k with
  | Some x => Ok x
  | None => Raise IndexError
  end.

(** [d[key]] on a dict. *)
Definition dict_getitem {A : Type} (d : gmap string A) (key : string) : result A :=
  match d !! key with
  | Some x => Ok x
  | None => Raise KeyError
  end.

(** [range(n)]. *)
Definition py_range (n : Z) : list Z := seqZ 0 n.

(** A Python [for] loop whose body can raise, threading the loop state. *)
Fixpoint foldM {A S : Type} (body : S -> A -> result S) (s : S) (l : list A)
  : result S :=
  match l with
  | [] => Ok s
  | x :: l' => s' <- body s x ;; foldM body s' l'
  end.

(** ** Networks *)

Section Networks.
Local Open Scope R_scope.

(** torch's random generator: the stream of real values it will hand out and
    the number of values consumed so far.  Which distribution a value is
    drawn from (the initialiser's uniform, [rsample]'s standard normal) is
    not modelled: every stream is a possible run. *)
Record torch_rng : Type := Rng {
  draws : nat -> R;
  cursor : nat
}.

Definition rng_take (n : nat) (g : torch_rng) : list R * torch_rng :=
  (fmap (M:=list) (draws g) (seq (cursor g) n), Rng (draws g) (cursor g + n)).

(** [r] rows of [c] fresh values each. *)
Fixpoint rng_rows (r c : nat) (g : torch_rng) : list (list R) * torch_rng :=
  match r with
  | O => ([], g)
  | S r' =>
      let '(row, g1) := rng_take c g in
      let '(rest, g2) := rng_rows r' c g1 in
      (row :: rest, g2)
  end.

(** One fresh row per row of [rows], of the same width. *)
Fixpoint rng_rows_like (rows : list (list R)) (g : torch_rng)
  : list (list R) * torch_rng :=
  match rows with
  | [] => ([], g)
  | row :: rows' =>
      let '(e, g1) := rng_take (length row) g in
      let '(rest, g2) := rng_rows_like rows' g1 in
      (e :: rest, g2)
  end.

(** [torch.nn.Parameter]: a tensor and its [requires_grad] flag. *)
Record nn_Parameter : Type := Param {
  data : tensor R;
  requires_grad : bool
}.

(** [torch.nn.Linear]: [weight] of shape [(out_features, in_features)] and
    [bias] of shape [(out_features,)]. *)
Record Linear : Type := MkLinear {
  in_features : nat;
  out_features : nat;
  weight : nn_Parameter;
  bias : nn_Parameter
}.

(** [nn.Linear(in_features, out_features)]: freshly initialised, trainable
    parameters. *)
Definition nn_Linear (n_in n_out : nat) (g : torch_rng) : Linear * torch_rng :=
  let '(w, g1) := rng_rows n_out n_in g in
  let '(b, g2) := rng_take n_out g1 in
  (MkLinear n_in n_out (Param (T2 w) true) (Param (T1 b) true), g2).

(** A layer of an [nn.Sequential] built by [mlp]: a linear layer or an
    instance of an activation class.  Activation classes are the
    parameter-free element-wise ones ([nn.ReLU], [nn.Tanh], [nn.Identity]). *)
Inductive layer : Type :=
  | LinearLayer (l : Linear)
  | ActivationLayer (f : R -> R).

End Networks.

(** [nn.Sequential]: the list of its layers. *)
Abbreviation Sequential := (list layer).

Section NetworkOps.
Local Open Scope R_scope.

Definition nn_ReLU : R -> R := fun x => Rmax 0 x.
Definition nn_Identity : R -> R := fun x => x.

(** *** Element-wise tensor operations *)

Definition tensor_map (f : R -> R) (t : tensor R) : tensor R :=
  match t with
  | T0 x => T0 (f x)
  | T1 v => T1 (fmap (M:=list) f v)
  | T2 rows => T2 (fmap (M:=list) (fmap (M:=list) f) rows)
  end.

Definition zip_same (f : R -> R -> R) (u v : list R) : result (list R) :=
  if bool_decide (length u = length v) then Ok (zip_with f u v)
  else Raise RuntimeError.

(** A binary element-wise operation on two tensors of one shape; operands of
    different shapes raise (broadcasting between tensors is not modelled). *)
Definition tensor_zip_with (f : R -> R -> R) (a b : tensor R)
  : result (tensor R) :=
  match a, b with
  | T0 x, T0 y => Ok (T0 (f x y))
  | T1 u, T1 v => w <- zip_same f u v ;; Ok (T1 w)
  | T2 r, T2 s =>
      if bool_decide (length r = length s)
      then rows <- mapM (fun p => zip_same f (fst p) (snd p)) (zip r s) ;;
           Ok (T2 rows)
      else Raise RuntimeError
  | _, _ => Raise RuntimeError
  end.

Definition Rsum (v : list R) : R := fold_right Rplus 0 v.

(** [t.sum(axis=-1)]: the last axis is summed away. *)
Definition tensor_sum_last (t : tensor R) : tensor R :=
  match t with
  | T0 x => T0 x
  | T1 v => T0 (Rsum v)
  | T2 rows => T1 (fmap (M:=list) Rsum rows)
  end.

(** [t.sum(axis=1)]: axis 1 exists only from rank 2 on. *)
Definition tensor_sum_axis1 (t : tensor R) : result (tensor R) :=
  match t with
  | T0 _ => Raise IndexError
  | T1 _ => Raise IndexError
  | T2 rows => Ok (T1 (fmap (M:=list) Rsum rows))
  end.

(** *** Forward passes of the layers *)

(** One output row of [F.linear]: [x W^T + b]. *)
Definition linear_row (l : Linear) (w : list (list R)) (b x : list R)
  : result (list R) :=
  if bool_decide (length x = in_features l)
  then ys <- mapM (fun r => p <- zip_same Rmult x r ;; Ok (Rsum p)) w ;;
       zip_same Rplus ys b
  else Raise RuntimeError.

Definition Linear_forward (l : Linear) (x : tensor R) : result (tensor R) :=
  match data (weight l), data (bias l) with
  | T2 w, T1 b =>
      match x with
      | T0 _ => Raise RuntimeError
      | T1 v => y <- linear_row l w b v ;; Ok (T1 y)
      | T2 rows => ys <- mapM (linear_row l w b) rows ;; Ok (T2 ys)
      end
  | _, _ => Raise RuntimeError
  end.

Definition layer_forward (ly : layer) (x : tensor R) : result (tensor R) :=
  match ly with
  | LinearLayer l => Linear_forward l x
  | ActivationLayer f => Ok (tensor_map f x)
  end.

Fixpoint Sequential_forward (layers : Sequential) (x : tensor R)
  : result (tensor R) :=
  match layers with
  | [] => Ok x
  | ly :: rest => y <- layer_forward ly x ;; Sequential_forward rest y
  end.

(** *** [mlp] *)

(** The body of the loop of [mlp] for index [j]; the loop state is the list
    [layers] and the generator. *)
Definition mlp_body (sizes : list nat) (activation output_activation : R -> R)
    (st : list layer * torch_rng) (j : Z) : result (list layer * torch_rng) :=
  let act := if bool_decide (j < Z.of_nat (length sizes) - 2)%Z
             then activation else output_activation in
  n_in <- py_getitem sizes j ;;
  n_out <- py_getitem sizes (j + 1)%Z ;;
  let '(lin, g') := nn_Linear n_in n_out (snd st) in
  Ok (fst st ++ [LinearLayer lin; ActivationLayer act], g').

(** [mlp(sizes, activation, output_activation)]. *)
Definition mlp (sizes : list nat) (activation output_activation : R -> R)
    (g : torch_rng) : result (Sequential * torch_rng) :=
  foldM (mlp_body sizes activation output_activation) ([], g)
        (py_range (Z.of_nat (length sizes) - 1)).

End NetworkOps.

(** ** Modules and their parameters *)

(** The part of the [nn.Module] interface used here: [parameters()], in
    registration order, and an in-place update of every parameter (what a
    loop [for p in module.parameters(): p.attr = ...] does). *)
Class NnModule (M : Type) : Type := {
  parameters : M -> list nn_Parameter;
  map_parameters : (nn_Parameter -> nn_Parameter) -> M -> M
}.

Definition Linear_map_parameters (f : nn_Parameter -> nn_Parameter) (l : Linear)
  : Linear :=
  MkLinear (in_features l) (out_features l) (f (weight l)) (f (bias l)).

#[export] Instance Linear_module : NnModule Linear := {
  parameters l := [weight l; bias l];
  map_parameters := Linear_map_parameters
}.

Definition layer_parameters (ly : layer) : list nn_Parameter :=
  match ly with
  | LinearLayer l => parameters l
  | ActivationLayer _ => []
  end.

Definition layer_map_parameters (f : nn_Parameter -> nn_Parameter) (ly : layer)
  : layer :=
  match ly with
  | LinearLayer l => LinearLayer (map_parameters f l)
  | ActivationLayer a => ActivationLayer a
  end.

#[export] Instance Sequential_module : NnModule Sequential := {
  parameters layers := concat (fmap (M:=list) layer_parameters layers);
  map_parameters f layers := fmap (M:=list) (layer_map_parameters f) layers
}.

(** [p.requires_grad = v]. *)
Definition set_requires_grad (v : bool) (p : nn_Parameter) : nn_Parameter :=
  Param (data p) v.

(** [freeze_thaw_parameters(module, freeze=True)]: the module after the
    call. *)
Definition freeze_thaw_parameters {M : Type} `{NnModule M}
    (module : M) (freeze : bool) : M :=
  if freeze
  then map_parameters (set_requires_grad false) module
  else map_parameters (set_requires_grad true) module.

(** ** Squashed-Gaussian actor *)

Section Actor.
Local Open Scope R_scope.

Record SquashedGaussianMLPActor : Type := MkActor {
  LOG_STD_MAX : R;
  LOG_STD_MIN : R;
  net : Sequential;
  mu_layer : Linear;
  log_std_layer : Linear;
  act_min : R;
  act_max : R
}.

(** [SquashedGaussianMLPActor.__init__]. *)
Definition SquashedGaussianMLPActor_init (obs_dim act_dim : nat)
    (hidden_sizes : list nat) (activation : R -> R) (act_range : R * R)
    (g : torch_rng) : result (SquashedGaussianMLPActor * torch_rng) :=
  ng <- mlp ([obs_dim] ++ hidden_sizes) activation activation g ;;
  h <- py_getitem hidden_sizes (-1) ;;
  let '(mu, g2) := nn_Linear h act_dim (snd ng) in
  h' <- py_getitem hidden_sizes (-1) ;;
  let '(ls, g3) := nn_Linear h' act_dim g2 in
  Ok (MkActor 2 (-20) (fst ng) mu ls (fst act_range) (snd act_range), g3).

(** [torch.clamp(x, lo, hi)], element-wise [min(max(x, lo), hi)]. *)
Definition clamp (lo hi x : R) : R := Rmin (Rmax x lo) hi.

(** [F.softplus] in exact arithmetic. *)
Definition softplus (z : R) : R := ln (1 + exp z).

(** [torch.distributions.Normal(loc, scale)]. *)
Record Normal : Type := MkNormal {
  loc : tensor R;
  scale : tensor R
}.

Definition same_shape (a b : tensor R) : bool :=
  match a, b with
  | T0 _, T0 _ => true
  | T1 u, T1 v => bool_decide (length u = length v)
  | T2 r, T2 s => bool_decide (fmap (M:=list) length r = fmap (M:=list) length s)
  | _, _ => false
  end.

(** The constructor; [loc] and [scale] of different shapes raise. *)
Definition Normal_init (mu std : tensor R) : result Normal :=
  if same_shape mu std then Ok (MkNormal mu std) else Raise RuntimeError.

(** Standard-normal noise of the shape of [t]. *)
Definition randn_like (t : tensor R) (g : torch_rng) : tensor R * torch_rng :=
  match t with
  | T0 _ => let '(e, g') := rng_take 1 g in (T0 (hd 0 e), g')
  | T1 v => let '(e, g') := rng_take (length v) g in (T1 e, g')
  | T2 rows => let '(e, g') := rng_rows_like rows g in (T2 e, g')
  end.

(** [Normal.rsample()]: [loc + eps * scale] with fresh noise [eps]. *)
Definition Normal_rsample (d : Normal) (g : torch_rng)
  : result (tensor R * torch_rng) :=
  let '(eps, g') := randn_like (loc d) g in
  es <- tensor_zip_with Rmult eps (scale d) ;;
  x <- tensor_zip_with Rplus (loc d) es ;;
  Ok (x, g').

(** [Normal.log_prob(value)]:
    [-((value - loc)**2) / (2*var) - log_scale - log(sqrt(2*pi))]. *)
Definition Normal_log_prob (d : Normal) (value : tensor R) : result (tensor R) :=
  sq <- tensor_zip_with (fun v m => (v - m) ^ 2) value (loc d) ;;
  tensor_zip_with
    (fun q s => - q / (2 * s ^ 2) - ln s - ln (sqrt (2 * PI))) sq (scale d).

(** [SquashedGaussianMLPActor.forward(obs, deterministic, with_logprob)]:
    the returned pair and the generator after the call. *)
Definition forward (self : SquashedGaussianMLPActor) (obs : tensor R)
    (deterministic with_logprob : bool) (g : torch_rng)
  : result ((tensor R * option (tensor R)) * torch_rng) :=
  net_out <- Sequential_forward (net self) obs ;;
  mu <- Linear_forward (mu_layer self) net_out ;;
  log_std <- Linear_forward (log_std_layer self) net_out ;;
  let log_std := tensor_map (clamp (LOG_STD_MIN self) (LOG_STD_MAX self)) log_std in
  let std := tensor_map exp log_std in
  pi_distribution <- Normal_init mu std ;;
  ag <- (if deterministic then Ok (mu, g)
         else Normal_rsample pi_distribution g) ;;
  let pi_action := fst ag in
  logprob_pi <-
    (if with_logprob
     then lp <- Normal_log_prob pi_distribution pi_action ;;
          let lp := tensor_sum_last lp in
          c <- tensor_sum_axis1
                 (tensor_map (fun a => 2 * (ln 2 - a - softplus (-2 * a)))
                             pi_action) ;;
          r <- tensor_zip_with Rminus lp c ;;
          Ok (Some r)
     else Ok None) ;;
  let squish_min := -1 in
  let squish_max := 1 in
  let pi_action := tensor_map tanh pi_action in
  let pi_action :=
    tensor_map (fun t => ((t - squish_min) / (squish_max - squish_min))
                         * (act_max self - act_min self) + act_min self)
               pi_action in
  Ok ((pi_action, logprob_pi), snd ag).

End Actor.

#[export] Instance Actor_module : NnModule SquashedGaussianMLPActor := {
  parameters a :=
    parameters (net a) ++ parameters (mu_layer a) ++ parameters (log_std_layer a);
  map_parameters f a :=
    MkActor (LOG_STD_MAX a) (LOG_STD_MIN a) (map_parameters f (net a))
            (map_parameters f (mu_layer a)) (map_parameters f (log_std_layer a))
            (act_min a) (act_max a)
}.

(** ** Q critic and the actor-critic ensemble *)

Record MLPQFunction : Type := MkQ {
  q : Sequential
}.

(** [MLPQFunction.__init__]. *)
Definition MLPQFunction_init (obs_dim act_dim : nat) (hidden_sizes : list nat)
    (activation : R -> R) (g : torch_rng) : result (MLPQFunction * torch_rng) :=
  ng <- mlp ([(obs_dim + act_dim)%nat] ++ hidden_sizes ++ [1%nat])
            activation nn_Identity g ;;
  Ok (MkQ (fst ng), snd ng).

#[export] Instance MLPQFunction_module : NnModule MLPQFunction := {
  parameters m := parameters (q m);
  map_parameters f m := MkQ (map_parameters f (q m))
}.

(** A [gym.spaces.Box]: its [shape] and the element-wise bounds. *)
Record Box : Type := MkBox {
  shape : list nat;
  low : list R;
  high : list R
}.

Record MLPActorCritic : Type := MkActorCritic {
  pi : SquashedGaussianMLPActor;
  q1 : MLPQFunction;
  q2 : MLPQFunction;
  q1targ : MLPQFunction;
  q2targ : MLPQFunction
}.

(** [MLPActorCritic.__init__(observation_space, action_space, hidden_sizes,
    activation)]; [observation_space] is a dict space. *)
Definition MLPActorCritic_init (observation_space : gmap string Box)
    (action_space : Box) (hidden_sizes : list nat) (activation : R -> R)
    (g : torch_rng) : result (MLPActorCritic * torch_rng) :=
  ospace <- dict_getitem observation_space "observation" ;;
  obs_dim <- py_getitem (shape ospace) 0 ;;
  act_dim <- py_getitem (shape action_space) 0 ;;
  lo <- py_getitem (low action_space) 0 ;;
  hi <- py_getitem (high action_space) 0 ;;
  let act_range := (lo, hi) in
  a <- SquashedGaussianMLPActor_init obs_dim act_dim hidden_sizes activation
         act_range g ;;
  c1 <- MLPQFunction_init obs_dim act_dim hidden_sizes activation (snd a) ;;
  c2 <- MLPQFunction_init obs_dim act_dim hidden_sizes activation (snd c1) ;;
  t1 <- MLPQFunction_init obs_dim act_dim hidden_sizes activation (snd c2) ;;
  t2 <- MLPQFunction_init obs_dim act_dim hidden_sizes activation (snd t1) ;;
  let t1' := freeze_thaw_parameters (fst t1) true in
  let t2' := freeze_thaw_parameters (fst t2) true in
  Ok (MkActorCritic (fst a) (fst c1) (fst c2) t1' t2', snd t2).

#[export] Instance MLPActorCritic_module : NnModule MLPActorCritic := {
  parameters m :=
    parameters (pi m) ++ parameters (q1 m) ++ parameters (q2 m)
    ++ parameters (q1targ m) ++ parameters (q2targ m);
  map_parameters f m :=
    MkActorCritic (map_parameters f (pi m)) (map_parameters f (q1 m))
                  (map_parameters f (q2 m)) (map_parameters f (q1targ m))
                  (map_parameters f (q2targ m))
}.

(** ** Parameter counting, the critic's forward pass and [act] *)

(** [t.shape].  A rank-2 tensor without rows has lost its width in this
    representation; the product of its shape is 0 whatever the width was. *)
Definition tensor_shape {F : Type} (t : tensor F) : list nat :=
  match t with
  | T0 _ => []
  | T1 v => [length v]
  | T2 rows => [length rows; length (hd [] rows)]
  end.

(** [np.prod(shape)]; the empty product is 1. *)
Definition np_prod (shape : list nat) : nat := foldr Nat.mul 1%nat shape.

(** [count_vars(module)]. *)
Definition count_vars {M : Type} `{NnModule M} (module : M) : nat :=
  sum_list (fmap (M:=list) (fun p => np_prod (tensor_shape (data p)))
                 (parameters module)).

(** [torch.cat([a, b], dim=-1)]: the operands are joined along the last
    axis and have to agree on every other one; a rank-0 operand is refused,
    an empty rank-1 operand is skipped. *)
Definition torch_cat_last (a b : tensor R) : result (tensor R) :=
  match a, b with
  | T0 _, _ => Raise RuntimeError
  | _, T0 _ => Raise RuntimeError
  | T1 u, T1 v => Ok (T1 (u ++ v))
  | T2 r, T2 s =>
      if bool_decide (length r = length s)
      then Ok (T2 (zip_with app r s))
      else Raise RuntimeError
  | T1 [], T2 s => Ok (T2 s)
  | T2 r, T1 [] => Ok (T2 r)
  | _, _ => Raise RuntimeError
  end.

(** [torch.squeeze(t, -1)]: the last axis is dropped when its size is 1.
    A batch without rows is squeezed (its width is not represented); this
    is what happens to the output of a network whose last layer has one
    output. *)
Definition torch_squeeze_last (t : tensor R) : tensor R :=
  match t with
  | T0 x => T0 x
  | T1 [x] => T0 x
  | T1 v => T1 v
  | T2 rows =>
      if bool_decide (Forall (fun r => length r = 1%nat) rows)
      then T1 (fmap (M:=list) (hd 0%R) rows)
      else T2 rows
  end.

(** [MLPQFunction.forward(obs, act)]. *)
Definition MLPQFunction_forward (self : MLPQFunction) (obs act : tensor R)
  : result (tensor R) :=
  x <- torch_cat_last obs act ;;
  qv <- Sequential_forward (q self) x ;;
  Ok (torch_squeeze_last qv).



(** Updating the parameters twice is updating them once with the composed
    update. *)
Class NnModuleCompose (M : Type) `{NnModule M} : Prop := {
  map_parameters_compose : forall (f h : nn_Parameter -> nn_Parameter) (m : M),
    map_parameters f (map_parameters h m) = map_parameters (fun p => f (h p)) m
}.

(** The stored transition a full or partly filled ring of capacity [m]
    holds in slot [i] after [n] stores. *)
Definition slot_owner (n m i : nat) : nat := n - 1 - (n - 1 - i) mod m.

(** An input a layer of [d] input features cannot take: a rank-0 tensor, a
    vector of another width, or a batch with a row of another width. *)
Definition wrong_width (d : nat) (t : tensor R) : Prop :=
  match t with
  | T0 _ => True
  | T1 v => length v <> d
  | T2 rows => Exists (fun r => length r <> d) rows
  end.

(** ** Well-formedness predicates *)

(** The shape invariant of a replay buffer created with integer dimensions
    [obs_dim], [act_dim] and a positive capacity. *)
Record buffer_wf {F : Type} (obs_dim act_dim : nat) (b : SACReplayBuffer F)
  : Prop := BufferWf {
  wf_capacity : (0 < max_size b)%Z;
  wf_ptr : (0 <= ptr b < max_size b)%Z;
  wf_size : (0 <= size b <= max_size b)%Z;
  wf_obs_len : Z.of_nat (length (obs_buf b)) = max_size b;
  wf_obs2_len : Z.of_nat (length (obs2_buf b)) = max_size b;
  wf_act_len : Z.of_nat (length (act_buf b)) = max_size b;
  wf_rew_len : Z.of_nat (length (rew_buf b)) = max_size b;
  wf_done_len : Z.of_nat (length (done_buf b)) = max_size b;
  wf_obs_width : Forall (fun r => length r = obs_dim) (obs_buf b);
  wf_obs2_width : Forall (fun r => length r = obs_dim) (obs2_buf b);
  wf_act_width : Forall (fun r => length r = act_dim) (act_buf b)
}.

(** A transition whose vectors have the buffer's dimensions. *)
Definition transition_wf {F : Type} (obs_dim act_dim : nat) (t : transition F)
  : Prop :=
  length (t_obs t) = obs_dim /\ length (t_next_obs t) = obs_dim
  /\ length (t_act t) = act_dim.

(** Slot [k mod m] of the ring [a] holds the [k]-th stored value, for each of
    the last [m] values of the history [xs]. *)
Definition ring_rel {A : Type} (m : nat) (a xs : list A) : Prop :=
  forall k x, xs !! k = Some x -> length xs <= k + m -> a !! (k mod m) = Some x.

(** The state of a buffer of capacity [max_size b] after the stores [ts]
    (oldest first): cursor, fill count, and each of the five arrays a ring
    over the corresponding field of the history. *)
Definition ring_inv {F : Type} (obs_dim act_dim : nat) (ts : list (transition F))
    (b : SACReplayBuffer F) : Prop :=
  buffer_wf obs_dim act_dim b
  /\ ptr b = (Z.of_nat (length ts) mod max_size b)%Z
  /\ size b = Z.min (Z.of_nat (length ts)) (max_size b)
  /\ ring_rel (Z.to_nat (max_size b)) (obs_buf b) (t_obs <$> ts)
  /\ ring_rel (Z.to_nat (max_size b)) (obs2_buf b) (t_next_obs <$> ts)
  /\ ring_rel (Z.to_nat (max_size b)) (act_buf b) (t_act <$> ts)
  /\ ring_rel (Z.to_nat (max_size b)) (rew_buf b) (t_rew <$> ts)
  /\ ring_rel (Z.to_nat (max_size b)) (done_buf b) (t_done <$> ts).

(** The parameters of a linear layer have the shapes its feature counts
    announce. *)
Definition Linear_wf (l : Linear) : Prop :=
  exists w b,
    data (weight l) = T2 w /\ data (bias l) = T1 b
    /\ length w = out_features l
    /\ Forall (fun r => length r = in_features l) w
    /\ length b = out_features l.

(** [layers] maps vectors of width [n_in] to vectors of width [n_out]. *)
Fixpoint Sequential_maps (layers : Sequential) (n_in n_out : nat) : Prop :=
  match layers with
  | [] => n_in = n_out
  | LinearLayer l :: rest =>
      Linear_wf l /\ in_features l = n_in
      /\ Sequential_maps rest (out_features l) n_out
  | ActivationLayer _ :: rest => Sequential_maps rest n_in n_out
  end.

(** The linear layers of a sequential network, in order. *)
Definition linear_layers (layers : Sequential) : list Linear :=
  omap (fun ly => match ly with
                  | LinearLayer l => Some l
                  | ActivationLayer _ => None
                  end) layers.

(** Every parameter of the module has its [requires_grad] flag equal to [v]. *)
Definition all_requires_grad {M : Type} `{NnModule M} (v : bool) (m : M) : Prop :=
  Forall (fun p => requires_grad p = v) (parameters m).

(** The layer list of [mlp] after the iterations [j = 0 .. k-1] of its loop. *)
Definition mlp_layers_upto (sizes : list nat) (activation output_activation : R -> R)
    (k : nat) (layers : Sequential) : Prop :=
  length layers = 2 * k
  /\ length (linear_layers layers) = k
  /\ (forall a b, sizes !! 0 = Some a -> sizes !! k = Some b ->
       Sequential_maps layers a b)
  /\ all_requires_grad true layers
  /\ (forall j, j < k ->
       exists lin n_in n_out,
         sizes !! j = Some n_in /\ sizes !! S j = Some n_out
         /\ linear_layers layers !! j = Some lin
         /\ Linear_wf lin
         /\ in_features lin = n_in /\ out_features lin = n_out
         /\ layers !! (2 * j) = Some (LinearLayer lin)
         /\ layers !! (2 * j + 1) =
            Some (ActivationLayer (if bool_decide (j + 2 < length sizes)
                                   then activation else output_activation))).

(** An actor whose layers fit together, from [obs_dim] inputs to [act_dim]
    outputs. *)
Definition Actor_wf (a : SquashedGaussianMLPActor) (obs_dim act_dim : nat) : Prop :=
  exists h,
    Sequential_maps (net a) obs_dim h
    /\ Linear_wf (mu_layer a)
    /\ in_features (mu_layer a) = h /\ out_features (mu_layer a) = act_dim
    /\ Linear_wf (log_std_layer a)
    /\ in_features (log_std_layer a) = h /\ out_features (log_std_layer a) = act_dim.

(** What the two operations of [NnModule] have to satisfy to stand for
    [parameters()] and an in-place update of the parameters: the update
    reaches every parameter, in order, and touches nothing but them. *)
Class NnModuleLaws (M : Type) `{NnModule M} : Prop := {
  parameters_map : forall (f : nn_Parameter -> nn_Parameter) (m : M),
    parameters (map_parameters f m) = f <$> parameters m;
  map_parameters_fixed : forall (f : nn_Parameter -> nn_Parameter) (m : M),
    Forall (fun p => f p = p) (parameters m) -> map_parameters f m = m
}.

(** Every cell of the tensor satisfies [P]. *)
Definition tensor_all (P : R -> Prop) (t : tensor R) : Prop :=
  match t with
  | T0 x => P x
  | T1 v => Forall P v
  | T2 rows => Forall (Forall P) rows
  end.

(** [y] has the batch structure of [x] (a vector, or as many rows as [x])
    and vectors of width [d]. *)
Definition tensor_like (d : nat) (x y : tensor R) : Prop :=
  match x, y with
  | T1 _, T1 v => length v = d
  | T2 r, T2 s => length s = length r /\ Forall (fun row => length row = d) s
  | _, _ => False
  end.

(** An observation input of width [d]: a vector or a batch of vectors. *)
Definition observation_input (d : nat) (obs : tensor R) : Prop :=
  tensor_like d obs obs.

(** The density of the normal distribution with mean [mu] and standard
    deviation [sigma]. *)
Definition normal_pdf (mu sigma x : R) : R :=
  (/ (sigma * sqrt (2 * PI)) * exp (- ((x - mu) ^ 2 / (2 * sigma ^ 2))))%R.

(** The log-density of a diagonal Gaussian at [x], summed over the action
    dimensions. *)
Definition gaussian_log_density (mu sigma x : list R) : R :=
  Rsum (zip_with (fun ms v => ln (normal_pdf (fst ms) (snd ms) v)) (zip mu sigma) x).

(** The tanh-squashing correction of the specification,
    [2*(ln 2 - x_i - softplus(-2*x_i))] with [softplus z = ln(1 + e^z)],
    summed over the action dimensions. *)
Definition tanh_correction (x : list R) : R :=
  Rsum (fmap (M:=list) (fun v => 2 * (ln 2 - v - ln (1 + exp (-2 * v))))%R x).

(** The affine map of the specification applied to [tanh x]. *)
Definition squash (lo hi x : R) : R :=
  ((tanh x - (-1)) / (1 - (-1)) * (hi - lo) + lo)%R.

(** Lines 69 to 73 of [forward], on their own: the mean and the standard
    deviation of the policy at [obs]. *)
Definition actor_head (self : SquashedGaussianMLPActor) (obs : tensor R)
  : result (tensor R * tensor R) :=
  net_out <- Sequential_forward (net self) obs ;;
  mu <- Linear_forward (mu_layer self) net_out ;;
  log_std <- Linear_forward (log_std_layer self) net_out ;;
  Ok (mu, tensor_map exp
            (tensor_map (clamp (LOG_STD_MIN self) (LOG_STD_MAX self)) log_std)).

(** Lines 69 to 81 of [forward]: the distribution, the pre-squash action
    and the generator after sampling. *)
Definition pre_squash (self : SquashedGaussianMLPActor) (obs : tensor R)
    (deterministic : bool) (g : torch_rng)
  : result (Normal * tensor R * torch_rng) :=
  ms <- actor_head self obs ;;
  d <- Normal_init (fst ms) (snd ms) ;;
  ag <- (if deterministic then Ok (fst ms, g) else Normal_rsample d g) ;;
  Ok (d, fst ag, snd ag).

(** * Properties *)

Ltac Zify.zify_post_hook ::= Z.to_euclidean_division_equations.

(** ** The result monad and Python indexing *)

Lemma bind_Ok_inv {A B : Type} (m : result A) (k : A -> result B) (b : B) :
  bind m k = Ok b -> exists a, m = Ok a /\ k a = Ok b.
Proof. destruct m as [a|e]; simpl; [eauto | discriminate]. Qed.

Lemma py_index_nonneg (n : nat) (i : Z) :
  (0 <= i < Z.of_nat n)%Z -> py_index n i = Ok (Z.to_nat i).
Proof. intros Hi. unfold py_index. rewrite bool_decide_eq_true_2; done. Qed.

Lemma setitem_ok {F : Type} (a : list F) (i : Z) (v : F) :
  (0 <= i < Z.of_nat (length a))%Z ->
  setitem a i v = Ok (<[Z.to_nat i := v]> a).
Proof. intros Hi. unfold setitem. by rewrite py_index_nonneg. Qed.

Lemma setitem_row_ok {F : Type} (d : nat) (a : list (list F)) (i : Z) (v : list F) :
  (0 <= i < Z.of_nat (length a))%Z ->
  Forall (fun r => length r = d) a -> length v = d ->
  setitem_row a i v = Ok (<[Z.to_nat i := v]> a).
Proof.
  intros Hi Hw Hv. unfold setitem_row. rewrite py_index_nonneg by done. simpl.
  destruct (lookup_lt_is_Some_2 a (Z.to_nat i)) as [old Hold]; [lia|].
  rewrite Hold. rewrite Forall_lookup in Hw. specialize (Hw _ _ Hold).
  unfold broadcast_row. rewrite bool_decide_eq_true_2 by congruence. done.
Qed.

(** ** [combined_shape] *)

(** C6, as stated, fails: for a scalar [shape] the result is not [(length,)]. *)
Lemma combined_shape_scalar_not_singleton :
  ~ (forall (length : Z) (shape : shape_arg),
       is_None shape || np_isscalar shape = true ->
       combined_shape length shape = [length]).
Proof.
  intros H. specialize (H 10%Z (ShapeScalar 3) eq_refl). discriminate H.
Qed.

(** C6, amended: [combined_shape(length, shape)] is [(length,)] when [shape]
    is [None], [(length, shape)] when [shape] is a scalar and
    [(length, *shape)] when it is a tuple; the result starts with [length]
    in every case. *)
Theorem combined_shape_cases (length : Z) :
  combined_shape length ShapeNone = [length]
  /\ (forall n : Z, combined_shape length (ShapeScalar n) = [length; n])
  /\ (forall dims : list Z, combined_shape length (ShapeTuple dims) = length :: dims)
  /\ (forall shape : shape_arg, head (combined_shape length shape) = Some length)
  /\ (forall shape : shape_arg,
        combined_shape length shape = [length] <->
        (is_None shape = true \/ shape = ShapeTuple [])).
Proof.
  split; [done|]. split; [done|]. split; [done|]. split.
  - by intros [| |].
  - intros sh. split.
    + destruct sh as [|n|dims]; simpl; intros Heq; simplify_eq; auto.
    + intros [Hn | ->]; [by destruct sh | done].
Qed.

(** ** Ring arrays *)

Section Ring.
Context {A : Type}.
Implicit Types (a xs : list A) (m : nat).

Lemma ring_rel_nil m a : ring_rel m a [].
Proof. intros k x Hk. by rewrite lookup_nil in Hk. Qed.

(** Writing the next value at slot [length xs mod m] keeps the relation: the
    only slot it overwrites belongs to a value that has left the window. *)
Lemma ring_rel_snoc m a xs x :
  0 < m -> length a = m -> ring_rel m a xs ->
  ring_rel m (<[length xs mod m := x]> a) (xs ++ [x]).
Proof.
  intros Hm Hlen Hrel k y Hk Hwin. rewrite length_app in Hwin. simpl in Hwin.
  destruct (decide (k = length xs)) as [->|Hne].
  - rewrite lookup_app_r, Nat.sub_diag in Hk by lia. simpl in Hk.
    injection Hk as <-. apply list_lookup_insert_eq. rewrite Hlen.
    apply Nat.mod_upper_bound. lia.
  - assert (k < length xs) as Hlt.
    { apply lookup_lt_Some in Hk. rewrite length_app in Hk. simpl in Hk. lia. }
    rewrite lookup_app_l in Hk by done.
    rewrite list_lookup_insert_ne; [apply Hrel; [done | lia] |].
    intros Heq.
    pose proof (Nat.div_mod_eq k m) as Hk'.
    pose proof (Nat.div_mod_eq (length xs) m) as Hn'.
    rewrite Heq in Hn'.
    destruct (le_lt_dec (length xs / m) (k / m)) as [Hq|Hq].
    + pose proof (Nat.mul_le_mono_l _ _ m Hq). lia.
    + pose proof (Nat.mul_le_mono_l _ _ m Hq) as Hmul.
      rewrite Nat.mul_succ_r in Hmul. lia.
Qed.

Lemma ring_rel_prefix m a xs :
  length a = m -> ring_rel m a xs -> length xs <= m ->
  take (length xs) a = xs.
Proof.
  intros Hlen Hrel Hle. apply list_eq. intros i.
  destruct (decide (i < length xs)) as [Hi|Hi].
  - rewrite lookup_take_lt by done.
    destruct (lookup_lt_is_Some_2 xs i Hi) as [x Hx]. rewrite Hx.
    rewrite <- (Nat.mod_small i m) by lia. apply Hrel; [done | lia].
  - rewrite lookup_take_ge by lia. symmetry. apply lookup_ge_None. lia.
Qed.

(** Read from the write cursor on, a full ring is the last [m] values of the
    history, oldest first. *)
Lemma ring_rel_rotate m a xs :
  0 < m -> length a = m -> ring_rel m a xs -> m <= length xs ->
  rotate (length xs mod m) a = drop (length xs - m) xs.
Proof.
  intros Hm Hlen Hrel Hle. apply list_eq. intros i.
  destruct (decide (i < m)) as [Hi|Hi].
  - rewrite lookup_rotate_r by lia. rewrite lookup_drop.
    destruct (lookup_lt_is_Some_2 xs (length xs - m + i)) as [x Hx]; [lia|].
    rewrite Hx. rewrite <- (Hrel _ _ Hx) by lia. f_equal.
    rewrite Hlen. unfold rotate_nat_add.
    rewrite <- Nat2Z.inj_add, <- Nat2Z.inj_mod, Nat2Z.id.
    rewrite Nat.Div0.add_mod_idemp_l.
    replace (length xs + i) with (length xs - m + i + 1 * m) by lia.
    by rewrite Nat.Div0.mod_add.
  - rewrite (lookup_ge_None_2 (rotate _ _)) by (rewrite length_rotate; lia).
    symmetry. apply lookup_ge_None. rewrite length_drop. lia.
Qed.

(** The same step for a ring that stores one field of each history entry. *)
Lemma ring_rel_snoc_fmap {B : Type} (f : B -> A) m a (ys : list B) (y : B) :
  0 < m -> length a = m -> ring_rel m a (f <$> ys) ->
  ring_rel m (<[length ys mod m := f y]> a) (f <$> (ys ++ [y])).
Proof.
  intros Hm Hlen Hrel. rewrite fmap_app. simpl.
  rewrite <- (length_fmap f ys). by apply ring_rel_snoc.
Qed.

End Ring.

(** ** Replay buffer: [__init__] and [store] *)

Section ReplayBufferStore.
Context {F : Type} (fzero : F).
Implicit Types (b : SACReplayBuffer F) (t : transition F).

Lemma init_ok (obs_dim act_dim m : Z) :
  (0 <= obs_dim)%Z -> (0 <= act_dim)%Z -> (0 <= m)%Z ->
  SACReplayBuffer_init fzero obs_dim act_dim m =
  Ok (Buffer (replicate (Z.to_nat m) (replicate (Z.to_nat obs_dim) fzero))
             (replicate (Z.to_nat m) (replicate (Z.to_nat obs_dim) fzero))
             (replicate (Z.to_nat m) (replicate (Z.to_nat act_dim) fzero))
             (replicate (Z.to_nat m) fzero) (replicate (Z.to_nat m) fzero)
             0 0 m).
Proof.
  intros Ho Ha Hm. unfold SACReplayBuffer_init, np_zeros2, np_zeros1. simpl.
  rewrite !bool_decide_eq_false_2 by lia. done.
Qed.

(** A buffer of capacity 0 can be created, but its arrays have no slot to
    store into. *)
Lemma store_capacity_zero (obs_dim act_dim : Z) t :
  (0 <= obs_dim)%Z -> (0 <= act_dim)%Z ->
  exists b0, SACReplayBuffer_init fzero obs_dim act_dim 0 = Ok b0
             /\ store_transition b0 t = Raise IndexError.
Proof.
  intros Ho Ha. eexists. split; [by apply init_ok|]. done.
Qed.

(** A negative capacity is refused by [np.zeros]. *)
Lemma init_negative (obs_dim act_dim m : Z) :
  (m < 0)%Z -> SACReplayBuffer_init fzero obs_dim act_dim m = Raise ValueError.
Proof.
  intros Hm. unfold SACReplayBuffer_init, np_zeros2. simpl.
  rewrite bool_decide_eq_true_2 by lia. done.
Qed.

Lemma init_ring_inv (obs_dim act_dim m : Z) :
  (0 <= obs_dim)%Z -> (0 <= act_dim)%Z -> (0 < m)%Z ->
  exists b0, SACReplayBuffer_init fzero obs_dim act_dim m = Ok b0
             /\ max_size b0 = m
             /\ ring_inv (Z.to_nat obs_dim) (Z.to_nat act_dim) [] b0.
Proof.
  intros Ho Ha Hm. eexists. split; [apply init_ok; lia|]. split; [done|].
  unfold ring_inv. simpl. split.
  - constructor; simpl; rewrite ?length_replicate; try lia;
      apply Forall_replicate, length_replicate.
  - rewrite Z.mod_0_l by lia. repeat split; try lia; apply ring_rel_nil.
Qed.

(** One [store] on a well-formed buffer. *)
Lemma store_ok (obs_dim act_dim : nat) b t :
  buffer_wf obs_dim act_dim b -> transition_wf obs_dim act_dim t ->
  store_transition b t =
  Ok (Buffer (<[Z.to_nat (ptr b) := t_obs t]> (obs_buf b))
             (<[Z.to_nat (ptr b) := t_next_obs t]> (obs2_buf b))
             (<[Z.to_nat (ptr b) := t_act t]> (act_buf b))
             (<[Z.to_nat (ptr b) := t_rew t]> (rew_buf b))
             (<[Z.to_nat (ptr b) := t_done t]> (done_buf b))
             ((ptr b + 1) mod max_size b)%Z
             (Z.min (size b + 1) (max_size b)) (max_size b)).
Proof.
  intros [] (Ho & Ho2 & Ha). unfold store_transition, store.
  rewrite (setitem_row_ok obs_dim) by (done || lia). simpl.
  rewrite (setitem_row_ok obs_dim) by (done || lia). simpl.
  rewrite (setitem_row_ok act_dim) by (done || lia). simpl.
  rewrite !setitem_ok by lia. simpl.
  unfold py_mod. rewrite bool_decide_eq_false_2 by lia. done.
Qed.

Lemma store_all_snoc b ts t :
  store_all b (ts ++ [t]) = (b' <- store_all b ts ;; store_transition b' t).
Proof.
  revert b. induction ts as [|t' ts IH]; intros b; simpl.
  - by destruct (store_transition b t).
  - destruct (store_transition b t'); simpl; [apply IH | done].
Qed.

Lemma Forall_insert_width {A : Type} (d : nat) (a : list (list A)) i (v : list A) :
  Forall (fun r => length r = d) a -> length v = d ->
  Forall (fun r => length r = d) (<[i := v]> a).
Proof. intros Ha Hv. by apply Forall_insert. Qed.

(** The invariant is kept by one more [store]. *)
Lemma store_ring_inv (obs_dim act_dim : nat) ts b t :
  ring_inv obs_dim act_dim ts b -> transition_wf obs_dim act_dim t ->
  exists b', store_transition b t = Ok b'
             /\ max_size b' = max_size b
             /\ ring_inv obs_dim act_dim (ts ++ [t]) b'.
Proof.
  intros (Hwf & Hptr & Hsize & Ro & Ro2 & Ra & Rr & Rd) Ht.
  eexists. split; [by eapply store_ok|]. split; [done|].
  pose proof Hwf as [].
  destruct Ht as (Ho & Ho2 & Ha).
  assert (Z.to_nat (ptr b) = length ts mod Z.to_nat (max_size b)) as Hp.
  { rewrite Hptr. rewrite <- (Z2Nat.id (max_size b)) at 1 by lia.
    by rewrite <- Nat2Z.inj_mod, Nat2Z.id. }
  unfold ring_inv. simpl. rewrite length_app. simpl.
  split; [|split; [|split]].
  - constructor; simpl; rewrite ?length_insert; try done.
    + apply Z.mod_pos_bound. lia.
    + lia.
    + by apply Forall_insert_width.
    + by apply Forall_insert_width.
    + by apply Forall_insert_width.
  - rewrite Hptr, Nat2Z.inj_add. simpl.
    rewrite Zplus_mod_idemp_l. done.
  - lia.
  - rewrite Hp. repeat split; apply ring_rel_snoc_fmap; (lia || done).
Qed.

(** After any sequence of well-formed stores the invariant holds. *)
Lemma store_all_ring_inv (obs_dim act_dim m : Z) ts :
  (0 <= obs_dim)%Z -> (0 <= act_dim)%Z -> (0 < m)%Z ->
  Forall (transition_wf (Z.to_nat obs_dim) (Z.to_nat act_dim)) ts ->
  exists b0 b, SACReplayBuffer_init fzero obs_dim act_dim m = Ok b0
               /\ store_all b0 ts = Ok b
               /\ max_size b = m
               /\ ring_inv (Z.to_nat obs_dim) (Z.to_nat act_dim) ts b.
Proof.
  intros Ho Ha Hm. induction ts as [|t ts IH] using rev_ind; intros Hts.
  - destruct (init_ring_inv obs_dim act_dim m) as (b0 & Hinit & Hmax & Hinv); try done.
    exists b0, b0. done.
  - apply Forall_app in Hts as [Hts Ht]. rewrite Forall_singleton in Ht.
    destruct (IH Hts) as (b0 & b & Hinit & Hrun & Hmax & Hinv).
    destruct (store_ring_inv _ _ _ _ _ Hinv Ht) as (b' & Hst & Hmax' & Hinv').
    exists b0, b'. rewrite store_all_snoc, Hrun. simpl.
    split; [done|]. split; [done|]. split; [congruence | done].
Qed.

(** What the invariant says about a field's array, before and after the
    ring has filled up. *)
Lemma ring_field_contents {A : Type} (f : transition F -> A) (m : nat)
    (a : list A) ts :
  0 < m -> length a = m -> ring_rel m a (f <$> ts) ->
  (length ts <= m -> take (length ts) a = f <$> ts)
  /\ (m <= length ts -> rotate (length ts mod m) a = f <$> drop (length ts - m) ts).
Proof.
  intros Hm Hlen Hrel. split; intros Hle.
  - rewrite <- (length_fmap f ts). apply (ring_rel_prefix m); rewrite ?length_fmap; done.
  - rewrite fmap_drop. rewrite <- (length_fmap f ts).
    apply ring_rel_rotate; rewrite ?length_fmap; done.
Qed.

(** C1: on a buffer created with capacity [m >= 1] and then filled by any
    sequence [ts] of stores, one more [store] writes its five values at index
    [ptr] of the five arrays (an index inside each of them: the buffer is
    well-formed), sets [ptr] to [(ptr+1) mod m] and [size] to
    [min(size+1, m)]; after [N <= m] stores [size = N] (and the first [N]
    slots hold the stored values in order); after [N > m] stores [size = m]
    and each array, read from [ptr] on, is the corresponding field of the
    most recent [m] transitions, oldest first. *)
Theorem store_ring_overwrite (obs_dim act_dim m : Z) (ts : list (transition F)) :
  (0 <= obs_dim)%Z -> (0 <= act_dim)%Z -> (0 < m)%Z ->
  Forall (transition_wf (Z.to_nat obs_dim) (Z.to_nat act_dim)) ts ->
  exists b0 b,
    SACReplayBuffer_init fzero obs_dim act_dim m = Ok b0
    /\ store_all b0 ts = Ok b
    /\ max_size b = m
    /\ (forall t, transition_wf (Z.to_nat obs_dim) (Z.to_nat act_dim) t ->
         store b (t_obs t) (t_act t) (t_rew t) (t_next_obs t) (t_done t) =
         Ok (Buffer (<[Z.to_nat (ptr b) := t_obs t]> (obs_buf b))
                    (<[Z.to_nat (ptr b) := t_next_obs t]> (obs2_buf b))
                    (<[Z.to_nat (ptr b) := t_act t]> (act_buf b))
                    (<[Z.to_nat (ptr b) := t_rew t]> (rew_buf b))
                    (<[Z.to_nat (ptr b) := t_done t]> (done_buf b))
                    ((ptr b + 1) mod m)%Z (Z.min (size b + 1) m) m))
    /\ buffer_wf (Z.to_nat obs_dim) (Z.to_nat act_dim) b
    /\ (Z.of_nat (length ts) <= m ->
         size b = Z.of_nat (length ts)
         /\ take (length ts) (obs_buf b) = t_obs <$> ts
         /\ take (length ts) (obs2_buf b) = t_next_obs <$> ts
         /\ take (length ts) (act_buf b) = t_act <$> ts
         /\ take (length ts) (rew_buf b) = t_rew <$> ts
         /\ take (length ts) (done_buf b) = t_done <$> ts)%Z
    /\ (m < Z.of_nat (length ts) ->
         let recent := drop (length ts - Z.to_nat m) ts in
         size b = m
         /\ length recent = Z.to_nat m
         /\ rotate (Z.to_nat (ptr b)) (obs_buf b) = t_obs <$> recent
         /\ rotate (Z.to_nat (ptr b)) (obs2_buf b) = t_next_obs <$> recent
         /\ rotate (Z.to_nat (ptr b)) (act_buf b) = t_act <$> recent
         /\ rotate (Z.to_nat (ptr b)) (rew_buf b) = t_rew <$> recent
         /\ rotate (Z.to_nat (ptr b)) (done_buf b) = t_done <$> recent)%Z.
Proof.
  intros Ho Ha Hm Hts.
  destruct (store_all_ring_inv obs_dim act_dim m ts Ho Ha Hm Hts)
    as (b0 & b & Hinit & Hrun & Hmax & Hinv).
  exists b0, b. split; [done|]. split; [done|]. split; [done|].
  destruct Hinv as (Hwf & Hptr & Hsize & Ro & Ro2 & Ra & Rr & Rd).
  pose proof Hwf as [].
  assert (Z.to_nat (ptr b) = length ts mod Z.to_nat m) as Hp.
  { rewrite Hptr, Hmax. rewrite <- (Z2Nat.id m) at 1 by lia.
    by rewrite <- Nat2Z.inj_mod, Nat2Z.id. }
  rewrite Hmax in *.
  destruct (ring_field_contents t_obs (Z.to_nat m) (obs_buf b) ts) as [Po Qo]; [lia..|done|].
  destruct (ring_field_contents t_next_obs (Z.to_nat m) (obs2_buf b) ts) as [Po2 Qo2]; [lia..|done|].
  destruct (ring_field_contents t_act (Z.to_nat m) (act_buf b) ts) as [Pa Qa]; [lia..|done|].
  destruct (ring_field_contents t_rew (Z.to_nat m) (rew_buf b) ts) as [Pr Qr]; [lia..|done|].
  destruct (ring_field_contents t_done (Z.to_nat m) (done_buf b) ts) as [Pd Qd]; [lia..|done|].
  assert (buffer_wf (Z.to_nat obs_dim) (Z.to_nat act_dim) b) as Hwf'.
  { constructor; rewrite ?Hmax; done. }
  split; [|split; [exact Hwf'|split]].
  - intros t Ht. rewrite <- Hmax.
    by apply (store_ok (Z.to_nat obs_dim) (Z.to_nat act_dim)).
  - intros Hle. split; [lia|].
    repeat split; [apply Po | apply Po2 | apply Pa | apply Pr | apply Pd]; lia.
  - intros Hlt. simpl. split; [lia|]. split; [rewrite length_drop; lia|].
    rewrite Hp.
    repeat split; [apply Qo | apply Qo2 | apply Qa | apply Qr | apply Qd]; lia.
Qed.

End ReplayBufferStore.

(** C1, at a capacity-3 buffer that has seen five stores. *)
Lemma store_ring_overwrite_witness :
  let mk (n : Z) := Transition [n; n] [n] n [(n + 100)%Z; (n + 100)%Z] 0%Z in
  let ts := mk <$> [1%Z; 2%Z; 3%Z; 4%Z; 5%Z] in
  exists b0 b,
    SACReplayBuffer_init 0%Z 2 1 3 = Ok b0
    /\ store_all b0 ts = Ok b
    /\ rew_buf b = [4%Z; 5%Z; 3%Z] /\ ptr b = 2%Z /\ size b = 3%Z
    /\ rotate (Z.to_nat (ptr b)) (rew_buf b) = [3%Z; 4%Z; 5%Z].
Proof.
  intros mk ts.
  destruct (@store_ring_overwrite Z 0%Z 2 1 3 ts) as (b0 & b & Hinit & Hrun & _);
    [lia | lia | lia | repeat constructor |].
  exists b0, b. split; [exact Hinit|]. split; [exact Hrun|].
  vm_compute in Hinit. injection Hinit as <-.
  vm_compute in Hrun. injection Hrun as <-.
  vm_compute. repeat split.
Defined.


(** ** Replay buffer: [sample_batch] *)

Lemma length_bind_const {A B : Type} (f : A -> list B) (n : nat) (l : list A) :
  (forall x, length (f x) = n) -> length (l ≫= f) = length l * n.
Proof.
  intros Hf. induction l as [|x l IH]; [done|].
  rewrite bind_cons, length_app, Hf, IH. simpl. lia.
Qed.

Lemma elem_of_tuples (vals : list Z) (k : nat) (idx : list Z) :
  idx ∈ tuples vals k <-> length idx = k /\ Forall (fun i => i ∈ vals) idx.
Proof.
  revert idx. induction k as [|k IH]; intros idx; simpl.
  - rewrite list_elem_of_singleton. split.
    + intros ->. by split.
    + intros [Hlen _]. by destruct idx.
  - rewrite list_elem_of_bind. split.
    + intros (x & Hin & Hx). apply list_elem_of_fmap in Hin as (rest & -> & Hrest).
      apply IH in Hrest as [Hlen Hall]. simpl. split; [lia | by constructor].
    + intros [Hlen Hall]. destruct idx as [|x rest]; [done|].
      apply Forall_cons in Hall as [Hx Hall]. exists x. split; [|done].
      apply list_elem_of_fmap. exists rest. split; [done|]. apply IH.
      simpl in Hlen. split; [lia | done].
Qed.

Lemma NoDup_tuples (vals : list Z) (k : nat) :
  NoDup vals -> NoDup (tuples vals k).
Proof.
  intros Hvals. induction k as [|k IH]; simpl; [apply NoDup_singleton|].
  apply NoDup_bind; [| |done].
  - intros x1 x2 y _ _ H1 H2.
    apply list_elem_of_fmap in H1 as (r1 & -> & _).
    apply list_elem_of_fmap in H2 as (r2 & Heq & _). congruence.
  - intros x _. apply NoDup_fmap_2; [|done]. intros r1 r2 Heq. congruence.
Qed.

Lemma length_tuples (vals : list Z) (k : nat) :
  length (tuples vals k) = length vals ^ k.
Proof.
  induction k as [|k IH]; simpl; [done|].
  rewrite (length_bind_const _ (length vals ^ k)); [done|].
  intros x. by rewrite length_fmap.
Qed.

(** Gathering with in-range indexes succeeds and returns, position by
    position, the indexed elements. *)
Lemma getitem_fancy_ok {A : Type} (a : list A) (indexes : list Z) :
  Forall (fun i => (0 <= i < Z.of_nat (length a))%Z) indexes ->
  exists o, getitem_fancy a indexes = Ok o
            /\ Some <$> o = (fun i => a !! Z.to_nat i) <$> indexes.
Proof.
  unfold getitem_fancy. induction 1 as [|i idx Hi _ (o & Ho & Hget)]; simpl.
  - by exists [].
  - rewrite py_index_nonneg by done. simpl.
    destruct (lookup_lt_is_Some_2 a (Z.to_nat i)) as [x Hx]; [lia|].
    rewrite Hx, Ho. simpl. exists (x :: o). split; [done|].
    rewrite fmap_cons. f_equal. exact Hget.
Qed.

Lemma gathered_length {A : Type} (a : list A) (o : list A) (indexes : list Z) :
  Some <$> o = (fun i => a !! Z.to_nat i) <$> indexes -> length o = length indexes.
Proof. intros H. apply (f_equal length) in H. by rewrite !length_fmap in H. Qed.

Section ReplayBufferSample.
Context {F : Type}.
Implicit Types (b : SACReplayBuffer F).

(** C4, amended: [sample_batch(k)] with [k >= 1] on a buffer with
    [size == 0] fails with the [ValueError] that [np.random.randint] raises
    on the empty range [[0, 0)] (the method has no guard of its own), and the
    buffer is the one the call started from. *)
Theorem sample_batch_empty_raises b (k : Z) :
  size b = 0%Z -> (0 < k)%Z ->
  sample_batch b k = [(Raise ValueError, b)].
Proof.
  intros Hsize Hk. unfold sample_batch, np_random_randint. rewrite Hsize.
  rewrite !bool_decide_eq_false_2 by lia. by rewrite bool_decide_eq_true_2 by lia.
Qed.

Lemma batch_of_ok (obs_dim act_dim : nat) b (indexes : list Z) :
  buffer_wf obs_dim act_dim b ->
  Forall (fun i => (0 <= i < size b)%Z) indexes ->
  exists o o2 a r d,
    batch_of b indexes =
      Ok (<["done" := T1 d]> (<["rew" := T1 r]> (<["act" := T2 a]>
           (<["obs2" := T2 o2]> (<["obs" := T2 o]> ∅)))))
    /\ Some <$> o = (fun i => obs_buf b !! Z.to_nat i) <$> indexes
    /\ Some <$> o2 = (fun i => obs2_buf b !! Z.to_nat i) <$> indexes
    /\ Some <$> a = (fun i => act_buf b !! Z.to_nat i) <$> indexes
    /\ Some <$> r = (fun i => rew_buf b !! Z.to_nat i) <$> indexes
    /\ Some <$> d = (fun i => done_buf b !! Z.to_nat i) <$> indexes.
Proof.
  intros [] Hidx.
  destruct (getitem_fancy_ok (obs_buf b) indexes) as (o & Ho & Go).
  { eapply Forall_impl; [exact Hidx|]. simpl. lia. }
  destruct (getitem_fancy_ok (obs2_buf b) indexes) as (o2 & Ho2 & Go2).
  { eapply Forall_impl; [exact Hidx|]. simpl. lia. }
  destruct (getitem_fancy_ok (act_buf b) indexes) as (a & Ha & Ga).
  { eapply Forall_impl; [exact Hidx|]. simpl. lia. }
  destruct (getitem_fancy_ok (rew_buf b) indexes) as (r & Hr & Gr).
  { eapply Forall_impl; [exact Hidx|]. simpl. lia. }
  destruct (getitem_fancy_ok (done_buf b) indexes) as (d & Hd & Gd).
  { eapply Forall_impl; [exact Hidx|]. simpl. lia. }
  exists o, o2, a, r, d. unfold batch_of. rewrite Ho, Ho2, Ha, Hr, Hd. simpl.
  unfold torch_as_tensor. rewrite map_fmap_id. done.
Qed.

(** C5: on a well-formed buffer with [size >= 1], [sample_batch(k)] for
    [k >= 1] has as equally likely outcomes exactly the index arrays of
    [[0, size)^k], each once (independent uniform draws with replacement);
    every outcome is a dict with exactly the keys [obs], [obs2], [act],
    [rew], [done], whose values are the rows of the corresponding array
    gathered at the drawn indexes, each with leading dimension [k]; the
    buffer is left as it was. *)
Theorem sample_batch_uniform_gather (obs_dim act_dim : nat) b (k : Z) :
  buffer_wf obs_dim act_dim b -> (1 <= size b)%Z -> (1 <= k)%Z ->
  let draws := tuples (seqZ 0 (size b)) (Z.to_nat k) in
  sample_batch b k = (fun indexes => (batch_of b indexes, b)) <$> draws
  /\ NoDup draws
  /\ length draws = Z.to_nat (size b) ^ Z.to_nat k
  /\ (forall indexes,
        indexes ∈ draws <->
        length indexes = Z.to_nat k
        /\ Forall (fun i => (0 <= i < size b)%Z) indexes)
  /\ (forall indexes, indexes ∈ draws ->
        exists (batch : gmap string (tensor F)) o o2 a r d,
          batch_of b indexes = Ok batch
          /\ dom batch = {[ "obs"; "obs2"; "act"; "rew"; "done" ]}
          /\ batch !! "obs" = Some (T2 o)
          /\ batch !! "obs2" = Some (T2 o2)
          /\ batch !! "act" = Some (T2 a)
          /\ batch !! "rew" = Some (T1 r)
          /\ batch !! "done" = Some (T1 d)
          /\ Some <$> o = (fun i => obs_buf b !! Z.to_nat i) <$> indexes
          /\ Some <$> o2 = (fun i => obs2_buf b !! Z.to_nat i) <$> indexes
          /\ Some <$> a = (fun i => act_buf b !! Z.to_nat i) <$> indexes
          /\ Some <$> r = (fun i => rew_buf b !! Z.to_nat i) <$> indexes
          /\ Some <$> d = (fun i => done_buf b !! Z.to_nat i) <$> indexes
          /\ Forall (fun t => leading_dim t = Some (Z.to_nat k))
                    [T2 o; T2 o2; T2 a; T1 r; T1 d]).
Proof.
  intros Hwf Hsize Hk draws.
  assert (forall indexes, indexes ∈ draws <->
            length indexes = Z.to_nat k
            /\ Forall (fun i => (0 <= i < size b)%Z) indexes) as Hmem.
  { intros indexes. unfold draws. rewrite elem_of_tuples.
    apply and_iff_compat_l. apply Forall_iff. intros i.
    rewrite elem_of_seqZ. lia. }
  split; [|split; [|split; [|split; [exact Hmem|]]]].
  - unfold sample_batch, np_random_randint.
    rewrite !bool_decide_eq_false_2 by lia. by rewrite Z.sub_0_r.
  - apply NoDup_tuples, NoDup_seqZ.
  - unfold draws. by rewrite length_tuples, length_seqZ.
  - intros indexes [Hlen Hidx]%Hmem.
    destruct (batch_of_ok obs_dim act_dim b indexes Hwf Hidx)
      as (o & o2 & a & r & d & Hb & Go & Go2 & Ga & Gr & Gd).
    eexists _, o, o2, a, r, d. split; [exact Hb|].
    split; [rewrite !dom_insert_L, dom_empty_L; set_solver|].
    do 5 (split; [by simplify_map_eq|]).
    do 5 (split; [done|]).
    repeat constructor; simpl; f_equal; rewrite <- Hlen;
      eauto using gathered_length.
Qed.

End ReplayBufferSample.

(** C4, as stated, fails: sampling from a freshly created (empty) buffer
    raises numpy's [ValueError], not [EmptyBufferError]. *)
Lemma sample_batch_empty_not_EmptyBufferError :
  exists b : SACReplayBuffer Z,
    SACReplayBuffer_init 0%Z 2 1 3 = Ok b /\ size b = 0%Z
    /\ sample_batch b 32 = [(Raise ValueError, b)]
    /\ ~ (forall r b', (r, b') ∈ sample_batch b 32 -> r = Raise EmptyBufferError).
Proof.
  eexists. split; [reflexivity|]. split; [reflexivity|]. split; [reflexivity|].
  intros H. specialize (H (Raise ValueError) _ (list_elem_of_here _ _)).
  discriminate H.
Qed.

(** C4 (amended) at a freshly created buffer and the default batch size. *)
Lemma sample_batch_empty_raises_witness :
  exists b : SACReplayBuffer Z,
    SACReplayBuffer_init 0%Z 2 1 3 = Ok b
    /\ sample_batch b 32 = [(Raise ValueError, b)].
Proof.
  eexists. split; [reflexivity|].
  apply sample_batch_empty_raises; [reflexivity | lia].
Defined.

(** C5 at a capacity-3 buffer holding two transitions, batches of two. *)
Lemma sample_batch_uniform_gather_witness :
  let b : SACReplayBuffer Z :=
    Buffer [[1; 1]; [2; 2]; [0; 0]]%Z [[101; 101]; [102; 102]; [0; 0]]%Z
           [[1]; [2]; [0]]%Z [1; 2; 0]%Z [0; 0; 0]%Z 2 2 3 in
  buffer_wf 2 1 b
  /\ length (sample_batch b 2) = 4
  /\ fst <$> sample_batch b 2 = batch_of b <$> [[0; 0]; [0; 1]; [1; 0]; [1; 1]]%Z.
Proof.
  intros b.
  assert (buffer_wf 2 1 b) as Hwf.
  { constructor; simpl; try lia; repeat constructor. }
  split; [exact Hwf|].
  destruct (sample_batch_uniform_gather 2 1 b 2 Hwf) as (Heq & _ & Hlen & _);
    [simpl; lia | lia |].
  rewrite Heq. rewrite length_fmap. split; [exact Hlen|].
  rewrite <- list_fmap_compose. reflexivity.
Defined.

(** ** Building networks: [nn.Linear] and [mlp] *)

Lemma foldM_snoc {A S : Type} (body : S -> A -> result S) (s : S) (l : list A) (x : A) :
  foldM body s (l ++ [x]) = (s' <- foldM body s l ;; body s' x).
Proof.
  revert s. induction l as [|y l IH]; intros s; simpl.
  - by destruct (body s x).
  - destruct (body s y); simpl; [apply IH | done].
Qed.

Lemma py_getitem_lookup {A : Type} (l : list A) (i : nat) (x : A) :
  l !! i = Some x -> py_getitem l (Z.of_nat i) = Ok x.
Proof.
  intros Hx. unfold py_getitem.
  rewrite py_index_nonneg by (apply lookup_lt_Some in Hx; lia). simpl.
  by rewrite Nat2Z.id, Hx.
Qed.

(** [l[-1]] is the last element. *)
Lemma py_getitem_last {A : Type} (l : list A) (x : A) :
  last l = Some x -> py_getitem l (-1) = Ok x.
Proof.
  intros Hx. unfold py_getitem, py_index.
  assert (0 < length l) by (destruct l; [done | simpl; lia]).
  rewrite bool_decide_eq_false_2 by lia. rewrite bool_decide_eq_true_2 by lia.
  simpl. rewrite last_lookup in Hx.
  replace (Z.to_nat (Z.of_nat (length l) + -1)) with (pred (length l)) by lia.
  by rewrite Hx.
Qed.

Lemma rng_take_length (n : nat) (g g' : torch_rng) (v : list R) :
  rng_take n g = (v, g') -> length v = n.
Proof.
  unfold rng_take. intros Heq. inversion Heq; subst.
  by rewrite length_fmap, length_seq.
Qed.

Lemma rng_rows_shape (r c : nat) (g g' : torch_rng) (rows : list (list R)) :
  rng_rows r c g = (rows, g') ->
  length rows = r /\ Forall (fun row => length row = c) rows.
Proof.
  revert g g' rows. induction r as [|r IH]; intros g g' rows; cbn [rng_rows].
  - intros Heq. inversion Heq; subst. by split.
  - destruct (rng_take c g) as [row g1] eqn:Hrow.
    destruct (rng_rows r c g1) as [rest g2] eqn:Hrest.
    intros Heq. inversion Heq; subst. destruct (IH _ _ _ Hrest) as [Hlen Hall].
    split; [simpl; lia|]. constructor; [by eapply rng_take_length | done].
Qed.

(** A freshly built linear layer is well-shaped and trainable. *)
Lemma nn_Linear_spec (n_in n_out : nat) (g g' : torch_rng) (lin : Linear) :
  nn_Linear n_in n_out g = (lin, g') ->
  Linear_wf lin /\ in_features lin = n_in /\ out_features lin = n_out
  /\ requires_grad (weight lin) = true /\ requires_grad (bias lin) = true.
Proof.
  unfold nn_Linear.
  destruct (rng_rows n_out n_in g) as [w g1] eqn:Hw.
  destruct (rng_take n_out g1) as [b g2] eqn:Hb.
  intros Heq. inversion Heq; subst. simpl.
  destruct (rng_rows_shape _ _ _ _ _ Hw) as [Hlen Hall].
  split; [|done]. exists w, b. simpl.
  split; [done|]. split; [done|]. split; [done|]. split; [done|].
  by eapply rng_take_length.
Qed.

Lemma Sequential_maps_snoc (layers : Sequential) (a b : nat) (lin : Linear) (f : R -> R) :
  Sequential_maps layers a b -> Linear_wf lin -> in_features lin = b ->
  Sequential_maps (layers ++ [LinearLayer lin; ActivationLayer f]) a (out_features lin).
Proof.
  revert a. induction layers as [|[l|f'] rest IH]; intros a; simpl.
  - intros -> Hwf Hin. done.
  - intros (Hl & Hin & Hrest) Hwf Hb. auto.
  - auto.
Qed.

Lemma linear_layers_snoc (layers : Sequential) (lin : Linear) (f : R -> R) :
  linear_layers (layers ++ [LinearLayer lin; ActivationLayer f])
  = linear_layers layers ++ [lin].
Proof. unfold linear_layers. by rewrite omap_app. Qed.

Lemma Sequential_parameters_app (l1 l2 : Sequential) :
  parameters (l1 ++ l2) = parameters l1 ++ parameters l2.
Proof. simpl. by rewrite fmap_app, concat_app. Qed.

(** The loop invariant of [mlp]. *)
Lemma mlp_loop (sizes : list nat) (activation output_activation : R -> R)
    (g : torch_rng) (k : nat) :
  S k <= length sizes ->
  exists layers g',
    foldM (mlp_body sizes activation output_activation) ([], g)
          (seqZ 0 (Z.of_nat k)) = Ok (layers, g')
    /\ mlp_layers_upto sizes activation output_activation k layers.
Proof.
  induction k as [|k IH]; intros Hk.
  - exists [], g. split; [done|]. unfold mlp_layers_upto. simpl.
    split; [done|]. split; [done|]. split; [congruence|].
    split; [constructor|]. intros j Hj. lia.
  - destruct IH as (layers & g1 & Hrun & Hlen & Hlin & Hmaps & Hgrad & Hpos); [lia|].
    rewrite seqZ_S, foldM_snoc, Hrun. simpl.
    destruct (lookup_lt_is_Some_2 sizes k) as [n_in Hin]; [lia|].
    destruct (lookup_lt_is_Some_2 sizes (S k)) as [n_out Hout]; [lia|].
    unfold mlp_body. simpl. rewrite !Z.add_0_l.
    rewrite (py_getitem_lookup _ _ _ Hin). simpl.
    replace (Z.of_nat k + 1)%Z with (Z.of_nat (S k)) by lia.
    rewrite (py_getitem_lookup _ _ _ Hout). simpl.
    destruct (nn_Linear n_in n_out g1) as [lin g2] eqn:Hnew.
    destruct (nn_Linear_spec _ _ _ _ _ Hnew) as (Hwf & Hi & Ho & Hgw & Hgb).
    eexists _, g2. split; [done|].
    unfold mlp_layers_upto.
    split; [rewrite length_app; simpl; lia|].
    split; [rewrite linear_layers_snoc, length_app; simpl; lia|].
    split; [|split].
    + intros a b Ha Hb. rewrite Hout in Hb. injection Hb as <-. rewrite <- Ho.
      apply (Sequential_maps_snoc _ _ n_in); [by apply Hmaps | done | done].
    + unfold all_requires_grad. rewrite Sequential_parameters_app.
      apply Forall_app. split; [exact Hgrad|].
      simpl. repeat constructor; done.
    + intros j Hj. destruct (decide (j = k)) as [->|Hne].
      * exists lin, n_in, n_out.
        split; [done|]. split; [done|].
        split; [rewrite linear_layers_snoc, lookup_app_r, Hlin, Nat.sub_diag by lia; done|].
        split; [done|]. split; [done|]. split; [done|].
        split; [rewrite lookup_app_r, Hlen, Nat.sub_diag by lia; done|].
        rewrite lookup_app_r by lia.
        replace (2 * k + 1 - length layers) with 1 by lia. simpl.
        rewrite (bool_decide_ext (Z.of_nat k < Z.of_nat (length sizes) - 2)%Z
                                 (k + 2 < length sizes)) by lia.
        done.
      * destruct (Hpos j) as (l' & a & b & Ha & Hb & Hl' & Hwf' & Hi' & Ho' & Hp1 & Hp2); [lia|].
        exists l', a, b.
        split; [done|]. split; [done|].
        split; [rewrite linear_layers_snoc, lookup_app_l by lia; done|].
        split; [done|]. split; [done|]. split; [done|].
        split; rewrite lookup_app_l by lia; done.
Qed.

(** C7: for [sizes] of length at least 2, [mlp] returns a sequential network
    of [2 * (len(sizes) - 1)] layers, of which exactly [len(sizes) - 1] are
    linear; the [j]-th linear layer has [sizes[j]] inputs and [sizes[j+1]]
    outputs (with parameters of those shapes) and sits at position [2j],
    followed at position [2j+1] by [activation] when it is not the last and
    by [output_activation] when it is.  For [sizes] of length below 2 the
    builder does not raise: its loop body never runs and the network has no
    layers. *)
Theorem mlp_structure (sizes : list nat) (activation output_activation : R -> R)
    (g : torch_rng) :
  (2 <= length sizes ->
   exists layers g',
     mlp sizes activation output_activation g = Ok (layers, g')
     /\ length layers = 2 * (length sizes - 1)
     /\ length (linear_layers layers) = length sizes - 1
     /\ (forall j, j < length sizes - 1 ->
         exists lin n_in n_out,
           sizes !! j = Some n_in /\ sizes !! S j = Some n_out
           /\ linear_layers layers !! j = Some lin
           /\ Linear_wf lin
           /\ in_features lin = n_in /\ out_features lin = n_out
           /\ layers !! (2 * j) = Some (LinearLayer lin)
           /\ layers !! (2 * j + 1) =
              Some (ActivationLayer (if bool_decide (j < length sizes - 2)
                                     then activation else output_activation))))
  /\ (length sizes < 2 ->
      mlp sizes activation output_activation g = Ok ([], g)).
Proof.
  split.
  - intros Hlen.
    destruct (mlp_loop sizes activation output_activation g (length sizes - 1))
      as (layers & g' & Hrun & Hl & Hlin & _ & _ & Hpos); [lia|].
    exists layers, g'. unfold mlp, py_range.
    replace (Z.of_nat (length sizes) - 1)%Z with (Z.of_nat (length sizes - 1)) by lia.
    split; [done|]. split; [done|]. split; [done|].
    intros j Hj.
    destruct (Hpos j Hj) as (lin & a & b & Ha & Hb & Hl' & Hwf & Hi & Ho & Hp1 & Hp2).
    exists lin, a, b. repeat (split; [done|]).
    rewrite Hp2.
    by rewrite (bool_decide_ext (j + 2 < length sizes) (j < length sizes - 2)) by lia.
  - intros Hlen. unfold mlp, py_range. rewrite seqZ_nil by lia. done.
Qed.

(** ** Modules, parameters and freezing *)

#[export] Instance Linear_laws : NnModuleLaws Linear.
Proof.
  split.
  - intros f l. done.
  - intros f [i o w b] Hf. simpl in Hf.
    apply Forall_cons in Hf as [Hw Hf]. apply Forall_cons in Hf as [Hb _].
    unfold map_parameters; simpl. unfold Linear_map_parameters; simpl.
    by rewrite Hw, Hb.
Qed.

#[export] Instance Sequential_laws : NnModuleLaws Sequential.
Proof.
  split.
  - intros f layers. simpl. induction layers as [|[l|a] rest IH]; [done| |].
    + rewrite !fmap_cons. simpl concat. rewrite !fmap_cons, <- IH. done.
    + rewrite !fmap_cons. simpl concat. done.
  - intros f layers. simpl. induction layers as [|[l|a] rest IH]; intros Hf; [done| |].
    + rewrite fmap_cons in Hf. simpl concat in Hf.
      apply Forall_cons in Hf as [Hw Hf]. apply Forall_cons in Hf as [Hb Hrest].
      rewrite fmap_cons. rewrite (IH Hrest). simpl.
      unfold Linear_map_parameters. rewrite Hw, Hb. by destruct l.
    + rewrite fmap_cons in Hf. simpl concat in Hf.
      rewrite fmap_cons. by rewrite (IH Hf).
Qed.

#[export] Instance Actor_laws : NnModuleLaws SquashedGaussianMLPActor.
Proof.
  split.
  - intros f a. cbn [parameters map_parameters Actor_module net mu_layer log_std_layer].
    by rewrite !fmap_app, !parameters_map.
  - intros f [hi lo n mu ls amin amax].
    cbn [parameters map_parameters Actor_module net mu_layer log_std_layer
         LOG_STD_MAX LOG_STD_MIN act_min act_max].
    intros Hf. apply Forall_app in Hf as [Hn Hf]. apply Forall_app in Hf as [Hmu Hls].
    by rewrite !map_parameters_fixed.
Qed.

#[export] Instance MLPQFunction_laws : NnModuleLaws MLPQFunction.
Proof.
  split.
  - intros f m. cbn [parameters map_parameters MLPQFunction_module q].
    apply (parameters_map (M:=Sequential)).
  - intros f [layers]. cbn [parameters map_parameters MLPQFunction_module q].
    intros Hf. by rewrite (map_parameters_fixed (M:=Sequential)).
Qed.

#[export] Instance MLPActorCritic_laws : NnModuleLaws MLPActorCritic.
Proof.
  split.
  - intros f m.
    cbn [parameters map_parameters MLPActorCritic_module pi q1 q2 q1targ q2targ].
    by rewrite !fmap_app, !parameters_map.
  - intros f [a c1 c2 t1 t2].
    cbn [parameters map_parameters MLPActorCritic_module pi q1 q2 q1targ q2targ].
    intros Hf. apply Forall_app in Hf as [Ha Hf]. apply Forall_app in Hf as [H1 Hf].
    apply Forall_app in Hf as [H2 Hf]. apply Forall_app in Hf as [H3 H4].
    by rewrite !map_parameters_fixed.
Qed.

Section Freeze.
Context {M : Type} `{NnModuleLaws M}.

(** The parameters after [freeze_thaw_parameters(module, freeze)]: the same
    tensors, every flag [not freeze]. *)
Lemma freeze_thaw_parameters_spec (module : M) (freeze : bool) :
  parameters (freeze_thaw_parameters module freeze)
  = set_requires_grad (negb freeze) <$> parameters module.
Proof. unfold freeze_thaw_parameters. destruct freeze; apply parameters_map. Qed.

Lemma freeze_thaw_flags (module : M) (freeze : bool) :
  all_requires_grad (negb freeze) (freeze_thaw_parameters module freeze).
Proof.
  unfold all_requires_grad. rewrite freeze_thaw_parameters_spec.
  apply Forall_fmap, Forall_true. done.
Qed.

Lemma freeze_thaw_data (module : M) (freeze : bool) :
  data <$> parameters (freeze_thaw_parameters module freeze)
  = data <$> parameters module.
Proof.
  rewrite freeze_thaw_parameters_spec, <- list_fmap_compose. done.
Qed.

(** A module whose flags already have the requested value is left as it
    is: the call changes flags only. *)
Lemma freeze_thaw_fixed (module : M) (freeze : bool) :
  all_requires_grad (negb freeze) module ->
  freeze_thaw_parameters module freeze = module.
Proof.
  intros Hall. unfold freeze_thaw_parameters.
  destruct freeze; apply map_parameters_fixed;
    (eapply Forall_impl; [exact Hall|]); intros [d r] Hr; simpl in *;
    unfold set_requires_grad; simpl; by rewrite Hr.
Qed.

End Freeze.

(** ** Constructors of the networks *)

Lemma mlp_ok (sizes : list nat) (activation output_activation : R -> R) (g : torch_rng) :
  1 <= length sizes ->
  exists layers g',
    mlp sizes activation output_activation g = Ok (layers, g')
    /\ mlp_layers_upto sizes activation output_activation (length sizes - 1) layers.
Proof.
  intros Hlen. unfold mlp, py_range.
  replace (Z.of_nat (length sizes) - 1)%Z with (Z.of_nat (length sizes - 1)) by lia.
  apply mlp_loop. lia.
Qed.

Lemma Sequential_parameters_length (layers : Sequential) :
  length (parameters layers) = 2 * length (linear_layers layers).
Proof.
  induction layers as [|[l|a] rest IH]; [done| |].
  - change (length (weight l :: bias l :: parameters rest)
            = 2 * length (l :: linear_layers rest)).
    cbn [length]. rewrite IH. lia.
  - exact IH.
Qed.

Lemma py_getitem_head {A : Type} (l : list A) (x : A) :
  head l = Some x -> py_getitem l 0 = Ok x.
Proof. destruct l as [|y l]; [done|]. simpl. by intros [= ->]. Qed.

Lemma Actor_init_ok (obs_dim act_dim : nat) (hidden_sizes : list nat)
    (activation : R -> R) (act_range : R * R) (g : torch_rng) (h : nat) :
  last hidden_sizes = Some h ->
  exists a g',
    SquashedGaussianMLPActor_init obs_dim act_dim hidden_sizes activation act_range g
      = Ok (a, g')
    /\ Actor_wf a obs_dim act_dim
    /\ all_requires_grad true a
    /\ length (parameters a) = 2 * length hidden_sizes + 4
    /\ act_min a = fst act_range /\ act_max a = snd act_range
    /\ LOG_STD_MIN a = (-20)%R /\ LOG_STD_MAX a = 2%R.
Proof.
  intros Hlast. unfold SquashedGaussianMLPActor_init.
  destruct (mlp_ok ([obs_dim] ++ hidden_sizes) activation activation g)
    as (layers & g1 & Hmlp & Hl & Hlin & Hmaps & Hgrad & _); [simpl; lia|].
  rewrite Hmlp. simpl bind. rewrite (py_getitem_last _ _ Hlast). simpl.
  destruct (nn_Linear h act_dim g1) as [mu g2] eqn:Hmu.
  destruct (nn_Linear h act_dim g2) as [ls g3] eqn:Hls.
  destruct (nn_Linear_spec _ _ _ _ _ Hmu) as (Wmu & Imu & Omu & Gmu1 & Gmu2).
  destruct (nn_Linear_spec _ _ _ _ _ Hls) as (Wls & Ils & Ols & Gls1 & Gls2).
  eexists _, g3. split; [done|]. simpl in Hl, Hlin.
  rewrite Nat.sub_0_r in *.
  split; [|split; [|split]].
  - exists h. simpl. split; [|done].
    apply Hmaps; [done|]. rewrite last_lookup in Hlast.
    destruct hidden_sizes as [|x hs]; [done|]. exact Hlast.
  - unfold all_requires_grad.
    cbn [parameters Actor_module net mu_layer log_std_layer].
    rewrite !Forall_app. split; [exact Hgrad|]. split; repeat constructor; done.
  - cbn [parameters Actor_module net mu_layer log_std_layer].
    rewrite !length_app.
    change (concat (layer_parameters <$> layers)) with (parameters layers).
    rewrite Sequential_parameters_length, Hlin. simpl. lia.
  - done.
Qed.

(** Without hidden layers [hidden_sizes[-1]] raises. *)
Lemma Actor_init_no_hidden (obs_dim act_dim : nat) (activation : R -> R)
    (act_range : R * R) (g : torch_rng) :
  SquashedGaussianMLPActor_init obs_dim act_dim [] activation act_range g
  = Raise IndexError.
Proof. done. Qed.

Lemma MLPQFunction_init_ok (obs_dim act_dim : nat) (hidden_sizes : list nat)
    (activation : R -> R) (g : torch_rng) :
  exists qf g',
    MLPQFunction_init obs_dim act_dim hidden_sizes activation g = Ok (qf, g')
    /\ all_requires_grad true qf
    /\ length (parameters qf) = 2 * (length hidden_sizes + 1)
    /\ Sequential_maps (q qf) (obs_dim + act_dim) 1.
Proof.
  unfold MLPQFunction_init.
  destruct (mlp_ok ([obs_dim + act_dim] ++ hidden_sizes ++ [1]) activation nn_Identity g)
    as (layers & g1 & Hmlp & Hl & Hlin & Hmaps & Hgrad & _); [simpl; lia|].
  rewrite Hmlp. simpl bind. eexists _, g1. split; [done|].
  simpl in Hlin. rewrite length_app in Hlin. simpl in Hlin.
  split; [exact Hgrad|]. split.
  - cbn [parameters MLPQFunction_module q].
    rewrite Sequential_parameters_length, Hlin. lia.
  - simpl. apply Hmaps; [done|]. simpl. rewrite length_app. simpl.
    replace (length hidden_sizes + 1 - 0) with (S (length hidden_sizes)) by lia.
    simpl. by rewrite lookup_app_r, Nat.sub_diag.
Qed.

(** ** The ensemble freezes its target critics *)

Lemma all_requires_grad_Q_inv (obs_dim act_dim : nat) (hidden_sizes : list nat)
    (activation : R -> R) (g g' : torch_rng) (qf : MLPQFunction) :
  MLPQFunction_init obs_dim act_dim hidden_sizes activation g = Ok (qf, g') ->
  all_requires_grad true qf
  /\ length (parameters qf) = 2 * (length hidden_sizes + 1).
Proof.
  intros Hinit.
  destruct (MLPQFunction_init_ok obs_dim act_dim hidden_sizes activation g)
    as (qf' & g'' & Hok & Hgrad & Hlen & _).
  rewrite Hok in Hinit. injection Hinit as <- <-. done.
Qed.

Lemma all_requires_grad_Actor_inv (obs_dim act_dim : nat) (hidden_sizes : list nat)
    (activation : R -> R) (act_range : R * R) (g g' : torch_rng)
    (a : SquashedGaussianMLPActor) :
  SquashedGaussianMLPActor_init obs_dim act_dim hidden_sizes activation act_range g
    = Ok (a, g') ->
  all_requires_grad true a /\ Actor_wf a obs_dim act_dim
  /\ length (parameters a) = 2 * length hidden_sizes + 4
  /\ act_min a = fst act_range /\ act_max a = snd act_range.
Proof.
  intros Hinit. destruct (last hidden_sizes) as [h|] eqn:Hlast.
  - destruct (Actor_init_ok obs_dim act_dim hidden_sizes activation act_range g h Hlast)
      as (a' & g'' & Hok & Hwf & Hgrad & Hlen & Hmin & Hmax & _).
    rewrite Hok in Hinit. injection Hinit as <- <-. done.
  - apply last_None in Hlast as ->. by rewrite Actor_init_no_hidden in Hinit.
Qed.

(** C8: construction of the ensemble succeeds on spaces with the attributes
    it reads and at least one hidden layer; on every constructed ensemble all
    parameters of [q1targ] and [q2targ] have [requires_grad = False] and all
    parameters of [q1], [q2] and [pi] have [requires_grad = True] (none of
    these parameter lists is empty); and [freeze_thaw_parameters], on any
    module, sets the flag of every parameter to the requested value, keeps
    every parameter tensor, and leaves a module whose flags already have that
    value exactly as it is. *)
Theorem ensemble_freezes_targets (observation_space : gmap string Box)
    (action_space : Box) (hidden_sizes : list nat) (activation : R -> R)
    (g : torch_rng) :
  (forall ospace obs_dim act_dim lo hi h,
     observation_space !! "observation" = Some ospace ->
     head (shape ospace) = Some obs_dim ->
     head (shape action_space) = Some act_dim ->
     head (low action_space) = Some lo ->
     head (high action_space) = Some hi ->
     last hidden_sizes = Some h ->
     exists ac g',
       MLPActorCritic_init observation_space action_space hidden_sizes activation g
       = Ok (ac, g'))
  /\ (forall ac g',
        MLPActorCritic_init observation_space action_space hidden_sizes activation g
        = Ok (ac, g') ->
        all_requires_grad false (q1targ ac)
        /\ all_requires_grad false (q2targ ac)
        /\ all_requires_grad true (q1 ac)
        /\ all_requires_grad true (q2 ac)
        /\ all_requires_grad true (pi ac)
        /\ Forall (fun c => length (parameters c) = 2 * (length hidden_sizes + 1))
                  [q1 ac; q2 ac; q1targ ac; q2targ ac]
        /\ length (parameters (pi ac)) = 2 * length hidden_sizes + 4)
  /\ (forall (M : Type) (HM : NnModule M) (HL : NnModuleLaws M)
             (module : M) (freeze : bool),
        parameters (freeze_thaw_parameters module freeze)
        = set_requires_grad (negb freeze) <$> parameters module
        /\ all_requires_grad (negb freeze) (freeze_thaw_parameters module freeze)
        /\ data <$> parameters (freeze_thaw_parameters module freeze)
           = data <$> parameters module
        /\ (all_requires_grad (negb freeze) module ->
            freeze_thaw_parameters module freeze = module)).
Proof.
  split; [|split].
  - intros ospace obs_dim act_dim lo hi h Hobs Hod Had Hlo Hhi Hlast.
    unfold MLPActorCritic_init, dict_getitem. rewrite Hobs. simpl bind.
    rewrite (py_getitem_head _ _ Hod), (py_getitem_head _ _ Had),
      (py_getitem_head _ _ Hlo), (py_getitem_head _ _ Hhi). simpl bind.
    destruct (Actor_init_ok obs_dim act_dim hidden_sizes activation (lo, hi) g h Hlast)
      as (a & g1 & -> & _). simpl bind.
    destruct (MLPQFunction_init_ok obs_dim act_dim hidden_sizes activation g1)
      as (c1 & g2 & -> & _). simpl bind.
    destruct (MLPQFunction_init_ok obs_dim act_dim hidden_sizes activation g2)
      as (c2 & g3 & -> & _). simpl bind.
    destruct (MLPQFunction_init_ok obs_dim act_dim hidden_sizes activation g3)
      as (t1 & g4 & -> & _). simpl bind.
    destruct (MLPQFunction_init_ok obs_dim act_dim hidden_sizes activation g4)
      as (t2 & g5 & -> & _). simpl bind.
    eauto.
  - intros ac g' Hinit. unfold MLPActorCritic_init in Hinit.
    apply bind_Ok_inv in Hinit as (ospace & _ & Hinit).
    apply bind_Ok_inv in Hinit as (obs_dim & _ & Hinit).
    apply bind_Ok_inv in Hinit as (act_dim & _ & Hinit).
    apply bind_Ok_inv in Hinit as (lo & _ & Hinit).
    apply bind_Ok_inv in Hinit as (hi & _ & Hinit).
    apply bind_Ok_inv in Hinit as ([a g1] & Ha & Hinit).
    apply bind_Ok_inv in Hinit as ([c1 g2] & H1 & Hinit).
    apply bind_Ok_inv in Hinit as ([c2 g3] & H2 & Hinit).
    apply bind_Ok_inv in Hinit as ([t1 g4] & H3 & Hinit).
    apply bind_Ok_inv in Hinit as ([t2 g5] & H4 & Hinit).
    cbn [fst snd] in Hinit. injection Hinit as <- <-.
    cbn [pi q1 q2 q1targ q2targ].
    apply all_requires_grad_Actor_inv in Ha as (Ga & _ & La & _).
    apply all_requires_grad_Q_inv in H1 as [G1 L1].
    apply all_requires_grad_Q_inv in H2 as [G2 L2].
    apply all_requires_grad_Q_inv in H3 as [G3 L3].
    apply all_requires_grad_Q_inv in H4 as [G4 L4].
    pose proof (freeze_thaw_flags t1 true) as F1.
    pose proof (freeze_thaw_flags t2 true) as F2.
    pose proof (freeze_thaw_parameters_spec t1 true) as P1.
    pose proof (freeze_thaw_parameters_spec t2 true) as P2.
    split; [exact F1|]. split; [exact F2|].
    do 3 (split; [done|]). split; [|done].
    apply (f_equal length) in P1, P2. rewrite length_fmap in P1, P2.
    repeat constructor; try done.
    + exact (eq_trans P1 L3).
    + exact (eq_trans P2 L4).
  - intros M HM HL module freeze.
    split; [apply freeze_thaw_parameters_spec|].
    split; [apply freeze_thaw_flags|].
    split; [apply freeze_thaw_data | apply freeze_thaw_fixed].
Qed.

(** C8 at a three-dimensional observation, two-dimensional action space
    with two hidden layers. *)
Lemma ensemble_freezes_targets_witness :
  let observation_space : gmap string Box :=
    {[ "observation" := MkBox [3] [] [] ]} in
  let action_space := MkBox [2] [(-1)%R; (-1)%R] [1%R; 1%R] in
  let g := Rng (fun _ => 0%R) 0 in
  exists ac g',
    MLPActorCritic_init observation_space action_space [4; 4] nn_ReLU g = Ok (ac, g')
    /\ all_requires_grad false (q1targ ac)
    /\ all_requires_grad true (q1 ac)
    /\ length (parameters (q1targ ac)) = 6.
Proof.
  intros observation_space action_space g.
  destruct (ensemble_freezes_targets observation_space action_space [4; 4] nn_ReLU g)
    as (Hex & Hflags & _).
  destruct (Hex (MkBox [3] [] []) 3 2 (-1)%R 1%R 4) as (ac & g' & Hinit);
    try reflexivity.
  exists ac, g'. split; [exact Hinit|].
  destruct (Hflags ac g' Hinit) as (Ht1 & _ & Hq1 & _ & _ & Hlen & _).
  split; [exact Ht1|]. split; [exact Hq1|].
  apply Forall_cons in Hlen as [_ Hlen]. apply Forall_cons in Hlen as [_ Hlen].
  apply Forall_cons in Hlen as [Hlen _]. exact Hlen.
Defined.

(** C7 at [sizes = [4, 8, 8, 2]]. *)
Lemma mlp_structure_witness :
  2 <= length [4; 8; 8; 2]
  /\ exists layers g',
       mlp [4; 8; 8; 2] nn_ReLU nn_Identity (Rng (fun _ => 0%R) 0) = Ok (layers, g')
       /\ length layers = 6 /\ length (linear_layers layers) = 3.
Proof.
  split; [simpl; lia|].
  destruct (mlp_structure [4; 8; 8; 2] nn_ReLU nn_Identity (Rng (fun _ => 0%R) 0))
    as [Hbuild _].
  destruct Hbuild as (layers & g' & Hrun & Hlen & Hlin & _); [simpl; lia|].
  exists layers, g'. split; [exact Hrun|]. split; [exact Hlen | exact Hlin].
Defined.

(** ** Real-number facts used by the actor *)

Section RealFacts.
Local Open Scope R_scope.




(** torch's formula for [Normal.log_prob] is the logarithm of the density. *)
Lemma normal_log_prob_formula (mu sigma x : R) :
  0 < sigma ->
  - (x - mu) ^ 2 / (2 * sigma ^ 2) - ln sigma - ln (sqrt (2 * PI))
  = ln (normal_pdf mu sigma x).
Proof.
  intros Hs. unfold normal_pdf.
  assert (0 < sqrt (2 * PI)) as Hq.
  { apply sqrt_lt_R0. pose proof PI_RGT_0. lra. }
  assert (0 < sigma * sqrt (2 * PI)) as Hsq by nra.
  rewrite ln_mult; [|by apply Rinv_0_lt_compat | apply exp_pos].
  rewrite ln_Rinv by done. rewrite ln_mult by done. rewrite ln_exp.
  unfold Rdiv. lra.
Qed.

(** The correction term is [ln (1 - tanh(x)^2)]. *)
Lemma tanh_correction_formula (x : R) :
  2 * (ln 2 - x - softplus (-2 * x)) = ln (1 - tanh x ^ 2).
Proof.
  unfold softplus.
  pose proof (exp_pos x) as Ha. pose proof (exp_pos (- x)) as Hb.
  assert (exp (-2 * x) = exp (- x) * exp (- x)) as He.
  { rewrite <- exp_plus. f_equal. lra. }
  assert (exp x * exp (- x) = 1) as Hab.
  { rewrite <- exp_plus. replace (x + - x) with 0 by lra. apply exp_0. }
  assert (1 - tanh x ^ 2 = (2 * / (exp x * (1 + exp (-2 * x)))) ^ 2) as ->.
  { unfold tanh, sinh, cosh. rewrite He, exp_Ropp.
    assert (0 < / exp x) as Hinv by (by apply Rinv_0_lt_compat).
    field. repeat split; nra. }
  assert (0 < 1 + exp (-2 * x)) as Hp by (pose proof (exp_pos (-2 * x)); lra).
  assert (0 < exp x * (1 + exp (-2 * x))) as Hd by nra.
  assert (0 < / (exp x * (1 + exp (-2 * x)))) as Hi by (by apply Rinv_0_lt_compat).
  rewrite ln_pow by nra. simpl INR.
  rewrite ln_mult by lra. rewrite ln_Rinv by done.
  rewrite ln_mult by done. rewrite ln_exp. lra.
Qed.

Lemma clamp_bounds (lo hi x : R) : lo <= hi -> lo <= clamp lo hi x <= hi.
Proof.
  intros Hle. unfold clamp. unfold Rmin, Rmax.
  repeat destruct (Rle_dec _ _); lra.
Qed.

End RealFacts.

(** ** Tensor operations on well-shaped operands *)

Lemma mapM_fmap {A B : Type} (f : A -> result B) (h : A -> B) (l : list A) :
  Forall (fun x => f x = Ok (h x)) l -> mapM f l = Ok (h <$> l).
Proof.
  induction 1 as [|x l Hx _ IH]; [done|]. simpl. by rewrite Hx, IH.
Qed.

Lemma mapM_exists {A B : Type} (f : A -> result B) (P : B -> Prop) (l : list A) :
  Forall (fun x => exists y, f x = Ok y /\ P y) l ->
  exists ys, mapM f l = Ok ys /\ length ys = length l /\ Forall P ys.
Proof.
  induction 1 as [|x l (y & Hy & HP) _ (ys & Hys & Hlen & Hall)].
  - by exists [].
  - exists (y :: ys). simpl. rewrite Hy, Hys. simpl.
    split; [done|]. split; [lia | by constructor].
Qed.

Lemma zip_same_ok (f : R -> R -> R) (u v : list R) :
  length u = length v -> zip_same f u v = Ok (zip_with f u v).
Proof. intros Hlen. unfold zip_same. by rewrite bool_decide_eq_true_2. Qed.

Lemma tensor_zip_with_T1 (f : R -> R -> R) (u v : list R) :
  length u = length v ->
  tensor_zip_with f (T1 u) (T1 v) = Ok (T1 (zip_with f u v)).
Proof. intros Hlen. simpl. by rewrite zip_same_ok. Qed.

Lemma tensor_zip_with_T2 (f : R -> R -> R) (r s : list (list R)) :
  Forall2 (fun u v => length u = length v) r s ->
  tensor_zip_with f (T2 r) (T2 s) = Ok (T2 (zip_with (zip_with f) r s)).
Proof.
  intros Hrs. simpl. rewrite bool_decide_eq_true_2 by (by eapply Forall2_length).
  assert (mapM (fun p => zip_same f (fst p) (snd p)) (zip r s)
          = Ok (zip_with (zip_with f) r s)) as ->; [|done].
  induction Hrs as [|u v r s Huv _ IH]; [done|].
  simpl. rewrite zip_same_ok by done. simpl. by rewrite IH.
Qed.

(** Rows of one width, in equal number, pair up row by row. *)
Lemma rows_pairwise (d : nat) (r s : list (list R)) :
  length r = length s ->
  Forall (fun row => length row = d) r -> Forall (fun row => length row = d) s ->
  Forall2 (fun u v => length u = length v) r s.
Proof.
  intros Hlen Hr Hs. apply Forall2_same_length_lookup_2; [done|].
  intros i u v Hu Hv. rewrite Forall_lookup in Hr. rewrite Forall_lookup in Hs.
  rewrite (Hr _ _ Hu), (Hs _ _ Hv). done.
Qed.

Lemma zip_with_rows_width (f : R -> R -> R) (d : nat) (r s : list (list R)) :
  length r = length s ->
  Forall (fun row => length row = d) r -> Forall (fun row => length row = d) s ->
  Forall (fun row => length row = d) (zip_with (zip_with f) r s).
Proof.
  intros Hlen Hr Hs. apply Forall_lookup. intros i row Hrow.
  apply lookup_zip_with_Some in Hrow as (u & v & -> & Hu & Hv).
  rewrite Forall_lookup in Hr. rewrite Forall_lookup in Hs.
  rewrite length_zip_with, (Hr _ _ Hu), (Hs _ _ Hv). lia.
Qed.

(** A binary operation on two tensors shaped like one reference tensor. *)
Lemma tensor_zip_with_like (f : R -> R -> R) (d : nat) (x0 a b : tensor R) :
  tensor_like d x0 a -> tensor_like d x0 b ->
  exists c, tensor_zip_with f a b = Ok c /\ tensor_like d x0 c.
Proof.
  destruct x0 as [|v0|r0], a as [|u|r], b as [|v|s]; simpl; try done.
  - intros Hu Hv. rewrite zip_same_ok by congruence. simpl.
    eexists. split; [done|]. simpl. rewrite length_zip_with. lia.
  - intros [Hr Wr] [Hs Ws].
    pose proof (tensor_zip_with_T2 f r s) as Hzip. simpl in Hzip.
    rewrite Hzip by (apply (rows_pairwise d); (congruence || done)).
    eexists. split; [done|]. simpl. split.
    + rewrite length_zip_with. lia.
    + apply zip_with_rows_width; (congruence || done).
Qed.

Lemma tensor_map_like (f : R -> R) (d : nat) (x0 a : tensor R) :
  tensor_like d x0 a -> tensor_like d x0 (tensor_map f a).
Proof.
  destruct x0 as [|v0|r0], a as [|u|r]; simpl; try done.
  - intros <-. apply length_fmap.
  - intros [Hr Wr]. split; [by rewrite length_fmap|].
    apply Forall_fmap. eapply Forall_impl; [exact Wr|]. intros row <-.
    simpl. apply length_fmap.
Qed.

Lemma tensor_like_same_shape (d : nat) (x0 a b : tensor R) :
  tensor_like d x0 a -> tensor_like d x0 b -> same_shape a b = true.
Proof.
  destruct x0 as [|v0|r0], a as [|u|r], b as [|v|s]; simpl; try done.
  - intros Hu Hv. apply bool_decide_eq_true_2. congruence.
  - intros [Hr Wr] [Hs Ws]. apply bool_decide_eq_true_2.
    apply list_eq_same_length with (length r); rewrite ?length_fmap; try lia.
    intros i m n Hi Hm Hn.
    apply list_lookup_fmap_Some in Hm as (u & -> & Hu).
    apply list_lookup_fmap_Some in Hn as (v & -> & Hv).
    rewrite Forall_lookup in Wr. rewrite Forall_lookup in Ws.
    rewrite (Wr _ _ Hu), (Ws _ _ Hv). done.
Qed.

(** ** Forward passes on well-shaped inputs *)

Lemma linear_row_ok (l : Linear) (w : list (list R)) (b x : list R) :
  length w = out_features l ->
  Forall (fun r => length r = in_features l) w ->
  length b = out_features l -> length x = in_features l ->
  exists y, linear_row l w b x = Ok y /\ length y = out_features l.
Proof.
  intros Hw Ww Hb Hx. unfold linear_row. rewrite bool_decide_eq_true_2 by done.
  rewrite (mapM_fmap _ (fun r => Rsum (zip_with Rmult x r))).
  - simpl. rewrite zip_same_ok by (rewrite length_fmap; congruence).
    eexists. split; [done|]. rewrite length_zip_with, length_fmap. lia.
  - eapply Forall_impl; [exact Ww|]. intros r Hr. simpl.
    by rewrite zip_same_ok by congruence.
Qed.

Lemma Linear_forward_ok (l : Linear) (x0 x : tensor R) :
  Linear_wf l -> tensor_like (in_features l) x0 x ->
  exists y, Linear_forward l x = Ok y /\ tensor_like (out_features l) x0 y.
Proof.
  intros (w & b & Hdw & Hdb & Hw & Ww & Hb) Hx. unfold Linear_forward.
  rewrite Hdw, Hdb. destruct x0 as [|v0|r0], x as [|v|rows]; simpl in Hx; try done.
  - destruct (linear_row_ok l w b v) as (y & Hy & Hlen); try done.
    rewrite Hy. simpl. by exists (T1 y).
  - destruct Hx as [Hrows Wrows].
    destruct (mapM_exists (linear_row l w b) (fun y => length y = out_features l) rows)
      as (ys & Hys & Hlen & Hall).
    { eapply Forall_impl; [exact Wrows|]. intros row Hrow. simpl.
      by apply linear_row_ok. }
    rewrite Hys. simpl. exists (T2 ys). split; [done|]. simpl. split; [lia | done].
Qed.

Lemma Sequential_forward_ok (layers : Sequential) (a b : nat) (x0 x : tensor R) :
  Sequential_maps layers a b -> tensor_like a x0 x ->
  exists y, Sequential_forward layers x = Ok y /\ tensor_like b x0 y.
Proof.
  revert a x. induction layers as [|[l|f] rest IH]; intros a x; simpl.
  - intros <- Hx. by exists x.
  - intros (Hwf & <- & Hrest) Hx.
    destruct (Linear_forward_ok l x0 x Hwf Hx) as (y & -> & Hy). simpl.
    by apply (IH (out_features l)).
  - intros Hrest Hx. apply (IH a); [done|]. by apply tensor_map_like.
Qed.

Lemma rng_rows_like_shape (rows e : list (list R)) (g g' : torch_rng) :
  rng_rows_like rows g = (e, g') ->
  Forall2 (fun u v => length u = length v) e rows.
Proof.
  revert e g g'. induction rows as [|row rows IH]; intros e g g'; cbn [rng_rows_like].
  - intros Heq. inversion Heq; subst. constructor.
  - destruct (rng_take (length row) g) as [e1 g1] eqn:He1.
    destruct (rng_rows_like rows g1) as [rest g2] eqn:Hrest.
    intros Heq. inversion Heq; subst. constructor; [|by eapply IH].
    by eapply rng_take_length.
Qed.

Lemma randn_like_shape (d : nat) (x0 t eps : tensor R) (g g' : torch_rng) :
  tensor_like d x0 t -> randn_like t g = (eps, g') -> tensor_like d x0 eps.
Proof.
  destruct x0 as [|v0|r0], t as [|v|rows]; cbn [tensor_like randn_like]; try done.
  - intros Hv. destruct (rng_take (length v) g) as [e g1] eqn:He.
    intros Heq. inversion Heq; subst. cbn [tensor_like].
    by rewrite (rng_take_length _ _ _ _ He).
  - intros [Hrows Wrows]. destruct (rng_rows_like rows g) as [e g1] eqn:He.
    intros Heq. inversion Heq; subst. cbn [tensor_like].
    apply rng_rows_like_shape in He.
    split; [by rewrite (Forall2_length _ _ _ He)|].
    apply Forall_lookup. intros i row Hrow.
    destruct (Forall2_lookup_l _ _ _ _ _ He Hrow) as (row' & Hrow' & Hlen).
    rewrite Forall_lookup in Wrows. rewrite Hlen. by eapply Wrows.
Qed.

Lemma Normal_rsample_ok (d : nat) (x0 mu std : tensor R) (g : torch_rng) :
  tensor_like d x0 mu -> tensor_like d x0 std ->
  exists x g', Normal_rsample (MkNormal mu std) g = Ok (x, g')
               /\ tensor_like d x0 x.
Proof.
  intros Hmu Hstd. unfold Normal_rsample. cbn [loc scale].
  destruct (randn_like mu g) as [eps g'] eqn:Heps.
  pose proof (randn_like_shape d x0 mu eps g g' Hmu Heps) as He.
  destruct (tensor_zip_with_like Rmult d x0 eps std He Hstd) as (es & -> & Hes).
  simpl.
  destruct (tensor_zip_with_like Rplus d x0 mu es Hmu Hes) as (x & -> & Hx).
  simpl. by exists x, g'.
Qed.

Lemma Normal_log_prob_ok (d : nat) (x0 mu std value : tensor R) :
  tensor_like d x0 mu -> tensor_like d x0 std -> tensor_like d x0 value ->
  exists lp, Normal_log_prob (MkNormal mu std) value = Ok lp
             /\ tensor_like d x0 lp.
Proof.
  intros Hmu Hstd Hv. unfold Normal_log_prob. cbn [loc scale].
  destruct (tensor_zip_with_like (fun v m => ((v - m) ^ 2)%R) d x0 value mu Hv Hmu)
    as (sq & -> & Hsq).
  simpl. by apply tensor_zip_with_like.
Qed.

(** The head of the forward pass on a well-formed actor. *)
Lemma actor_head_ok (self : SquashedGaussianMLPActor) (obs_dim act_dim : nat)
    (obs : tensor R) :
  Actor_wf self obs_dim act_dim -> observation_input obs_dim obs ->
  exists mu std, actor_head self obs = Ok (mu, std)
                 /\ tensor_like act_dim obs mu /\ tensor_like act_dim obs std.
Proof.
  intros (h & Hnet & Wmu & Imu & Omu & Wls & Ils & Ols) Hobs. unfold actor_head.
  destruct (Sequential_forward_ok (net self) obs_dim h obs obs Hnet Hobs)
    as (net_out & -> & Hout). simpl.
  rewrite <- Imu in Hout.
  destruct (Linear_forward_ok _ obs net_out Wmu Hout) as (mu & -> & Hmu). simpl.
  rewrite Imu, <- Ils in Hout.
  destruct (Linear_forward_ok _ obs net_out Wls Hout) as (ls & -> & Hls). simpl.
  eexists _, _. split; [done|]. rewrite Omu in Hmu. rewrite Ols in Hls.
  split; [done|]. by do 2 apply tensor_map_like.
Qed.

Lemma pre_squash_ok (self : SquashedGaussianMLPActor) (obs_dim act_dim : nat)
    (obs : tensor R) (deterministic : bool) (g : torch_rng) :
  Actor_wf self obs_dim act_dim -> observation_input obs_dim obs ->
  exists mu std x g',
    actor_head self obs = Ok (mu, std)
    /\ pre_squash self obs deterministic g = Ok (MkNormal mu std, x, g')
    /\ tensor_like act_dim obs mu /\ tensor_like act_dim obs std
    /\ tensor_like act_dim obs x.
Proof.
  intros Hwf Hobs.
  destruct (actor_head_ok self obs_dim act_dim obs Hwf Hobs)
    as (mu & std & Hhead & Hmu & Hstd).
  unfold pre_squash. rewrite Hhead. cbn [bind fst snd].
  unfold Normal_init. rewrite (tensor_like_same_shape act_dim obs mu std) by done.
  cbn [bind]. destruct deterministic.
  - cbn [bind fst snd]. by exists mu, std, mu, g.
  - destruct (Normal_rsample_ok act_dim obs mu std g Hmu Hstd) as (x & g' & -> & Hx).
    cbn [bind fst snd]. by exists mu, std, x, g'.
Qed.

(** [forward] is its first thirteen lines followed by the log-probability
    branch and the squashing. *)
Lemma forward_factor (self : SquashedGaussianMLPActor) (obs : tensor R)
    (deterministic with_logprob : bool) (g : torch_rng) :
  forward self obs deterministic with_logprob g =
  (r <- pre_squash self obs deterministic g ;;
   logprob_pi <-
     (if with_logprob
      then lp <- Normal_log_prob (fst (fst r)) (snd (fst r)) ;;
           c <- tensor_sum_axis1
                  (tensor_map (fun a => 2 * (ln 2 - a - softplus (-2 * a)))%R
                              (snd (fst r))) ;;
           s <- tensor_zip_with Rminus (tensor_sum_last lp) c ;;
           Ok (Some s)
      else Ok None) ;;
   Ok ((tensor_map (fun t => ((t - (-1)) / (1 - (-1))
                              * (act_max self - act_min self) + act_min self)%R)
                   (tensor_map tanh (snd (fst r))),
        logprob_pi), snd r)).
Proof.
  unfold forward, pre_squash, actor_head.
  destruct (Sequential_forward (net self) obs) as [net_out|]; [|done]. cbn [bind].
  destruct (Linear_forward (mu_layer self) net_out) as [mu|]; [|done]. cbn [bind].
  destruct (Linear_forward (log_std_layer self) net_out) as [ls|]; [|done].
  cbn [bind fst snd].
  destruct (Normal_init _ _) as [d|]; [|done]. cbn [bind].
  destruct (if deterministic then _ else _) as [[x g']|]; [|done].
  cbn [bind fst snd]. done.
Qed.

Lemma tensor_like_T1_inv (d : nat) (v : list R) (t : tensor R) :
  tensor_like d (T1 v) t -> exists u, t = T1 u /\ length u = d.
Proof. destruct t as [|u|r]; simpl; [done | eauto | done]. Qed.

Lemma tensor_like_T2_inv (d : nat) (rows : list (list R)) (t : tensor R) :
  tensor_like d (T2 rows) t ->
  exists r, t = T2 r /\ length r = length rows
            /\ Forall (fun row => length row = d) r.
Proof. destruct t as [|u|r]; simpl; [done | done | intros []; eauto]. Qed.

Lemma tensor_all_map (P : R -> Prop) (f : R -> R) (t : tensor R) :
  (forall x, P (f x)) -> tensor_all P (tensor_map f t).
Proof.
  intros HP. destruct t as [x|v|rows]; simpl.
  - apply HP.
  - apply Forall_fmap, Forall_true. intros x. apply HP.
  - apply Forall_fmap, Forall_true. intros row. simpl.
    apply Forall_fmap, Forall_true. intros x. apply HP.
Qed.


Lemma tensor_map_map (f h : R -> R) (t : tensor R) :
  tensor_map f (tensor_map h t) = tensor_map (fun x => f (h x)) t.
Proof.
  destruct t as [x|v|rows]; simpl; [done | |].
  - by rewrite <- list_fmap_compose.
  - rewrite <- list_fmap_compose. f_equal. apply list_fmap_ext.
    intros i row _. simpl. by rewrite <- list_fmap_compose.
Qed.

Section ActorForward.
Local Open Scope R_scope.
Implicit Types (self : SquashedGaussianMLPActor) (obs : tensor R) (g : torch_rng).

(** The action returned by [forward] is the squashed pre-squash action. *)
Lemma forward_action_squash self obs (deterministic with_logprob : bool) g a lp g' :
  forward self obs deterministic with_logprob g = Ok ((a, lp), g') ->
  exists d x, pre_squash self obs deterministic g = Ok (d, x, g')
              /\ a = tensor_map (squash (act_min self) (act_max self)) x.
Proof.
  rewrite forward_factor. intros Hfw.
  apply bind_Ok_inv in Hfw as ([[d x] g1] & Hpre & Hfw). cbn [fst snd] in Hfw.
  apply bind_Ok_inv in Hfw as (lp' & _ & Hfw).
  injection Hfw as <- <- <-. exists d, x. split; [done|].
  by rewrite tensor_map_map.
Qed.

(** Without the log-probability, [forward] succeeds wherever the first part
    of it does. *)
Lemma forward_without_logprob self obs (deterministic : bool) g d x g' :
  pre_squash self obs deterministic g = Ok (d, x, g') ->
  forward self obs deterministic false g
  = Ok ((tensor_map (squash (act_min self) (act_max self)) x, None), g').
Proof.
  intros Hpre. rewrite forward_factor, Hpre. cbn [bind fst snd].
  by rewrite tensor_map_map.
Qed.

(** The standard deviation is positive everywhere. *)
Lemma actor_head_std_pos self obs mu std :
  actor_head self obs = Ok (mu, std) -> tensor_all (fun s => 0 < s) std.
Proof.
  unfold actor_head. intros Hh.
  apply bind_Ok_inv in Hh as (net_out & _ & Hh).
  apply bind_Ok_inv in Hh as (mu' & _ & Hh).
  apply bind_Ok_inv in Hh as (ls & _ & Hh).
  injection Hh as <- <-. apply tensor_all_map. intros x. apply exp_pos.
Qed.

(** One row of the log-density, as torch computes it, is the diagonal
    Gaussian log-density summed over the action dimensions. *)
Lemma log_prob_row (mu std x : list R) :
  Forall (fun s => 0 < s) std ->
  Rsum (zip_with (fun q s => - q / (2 * s ^ 2) - ln s - ln (sqrt (2 * PI)))
                 (zip_with (fun v m => (v - m) ^ 2) x mu) std)
  = gaussian_log_density mu std x.
Proof.
  unfold gaussian_log_density. intros Hstd. revert mu x.
  induction Hstd as [|s std Hs _ IH]; intros mu x.
  - destruct mu, x; simpl; done.
  - destruct mu as [|m mu], x as [|v x]; [done..|].
    cbn [zip_with zip Rsum fold_right fst snd].
    rewrite normal_log_prob_formula by done. f_equal. apply IH.
Qed.

(** The log-probability branch on a batch: every step succeeds, and the
    result is, row by row, the summed log-density minus the summed
    correction. *)
Lemma forward_logprob_batched self (obs_dim act_dim : nat) (rows : list (list R))
    (deterministic : bool) g :
  Actor_wf self obs_dim act_dim -> observation_input obs_dim (T2 rows) ->
  exists mu std x g',
    actor_head self (T2 rows) = Ok (T2 mu, T2 std)
    /\ pre_squash self (T2 rows) deterministic g
       = Ok (MkNormal (T2 mu) (T2 std), T2 x, g')
    /\ length mu = length rows /\ length std = length rows
    /\ length x = length rows
    /\ Forall (fun r => length r = act_dim) x
    /\ forward self (T2 rows) deterministic true g
       = Ok ((tensor_map (squash (act_min self) (act_max self)) (T2 x),
              Some (T1 (zip_with Rminus
                          (Rsum <$>
                             zip_with (zip_with (fun q s => - q / (2 * s ^ 2) - ln s
                                                            - ln (sqrt (2 * PI))))
                               (zip_with (zip_with (fun v m => (v - m) ^ 2)) x mu) std)
                          (Rsum <$>
                             (fmap (M:=list)
                                (fun a => 2 * (ln 2 - a - softplus (-2 * a))) <$> x))))),
             g').
Proof.
  intros Hwf Hobs.
  destruct (pre_squash_ok self obs_dim act_dim (T2 rows) deterministic g Hwf Hobs)
    as (mu' & std' & x' & g' & Hhead & Hpre & Hmu & Hstd & Hx).
  apply tensor_like_T2_inv in Hmu as (mu & -> & Lmu & Wmu).
  apply tensor_like_T2_inv in Hstd as (std & -> & Lstd & Wstd).
  apply tensor_like_T2_inv in Hx as (x & -> & Lx & Wx).
  exists mu, std, x, g'. do 6 (split; [done|]).
  rewrite forward_factor, Hpre. cbn [bind fst snd].
  unfold Normal_log_prob. cbn [loc scale].
  rewrite tensor_zip_with_T2 by (apply (rows_pairwise act_dim); (congruence || done)).
  cbn [bind].
  rewrite tensor_zip_with_T2.
  2:{ apply (rows_pairwise act_dim); [| |done].
      - rewrite length_zip_with. lia.
      - apply zip_with_rows_width; (congruence || done). }
  rewrite tensor_map_map.
  cbn [bind tensor_sum_last tensor_map tensor_sum_axis1].
  rewrite tensor_zip_with_T1.
  2:{ rewrite !length_fmap, !length_zip_with. lia. }
  cbn [bind]. done.
Qed.

(** C3: on a well-formed actor and a batch of observations, [forward] with
    [with_logprob=True] returns, for every batch row, the diagonal-Gaussian
    log-density of the pre-squash action summed over the action dimensions
    minus the correction [2*(ln 2 - x_i - softplus(-2*x_i))] summed over the
    action dimensions, next to the same action that [with_logprob=False]
    returns; with [with_logprob=False] the log-probability is [None] on every
    input. *)
Theorem forward_logprob_value self (obs_dim act_dim : nat) (rows : list (list R))
    (deterministic : bool) g :
  (Actor_wf self obs_dim act_dim -> observation_input obs_dim (T2 rows) ->
   exists mu std x lps a g',
     actor_head self (T2 rows) = Ok (T2 mu, T2 std)
     /\ pre_squash self (T2 rows) deterministic g
        = Ok (MkNormal (T2 mu) (T2 std), T2 x, g')
     /\ forward self (T2 rows) deterministic true g = Ok ((a, Some (T1 lps)), g')
     /\ forward self (T2 rows) deterministic false g = Ok ((a, None), g')
     /\ length lps = length rows
     /\ (forall (b : nat) (mu_b std_b x_b : list R),
           mu !! b = Some mu_b -> std !! b = Some std_b -> x !! b = Some x_b ->
           lps !! b = Some (gaussian_log_density mu_b std_b x_b - tanh_correction x_b)))
  /\ (forall obs a lp g',
        forward self obs deterministic false g = Ok ((a, lp), g') -> lp = None).
Proof.
  split.
  - intros Hwf Hobs.
    destruct (forward_logprob_batched self obs_dim act_dim rows deterministic g Hwf Hobs)
      as (mu & std & x & g' & Hhead & Hpre & Lmu & Lstd & Lx & Wx & Hfw).
    eexists mu, std, x, _, _, g'.
    split; [exact Hhead|]. split; [exact Hpre|]. split; [exact Hfw|].
    split; [by apply forward_without_logprob with (d := MkNormal (T2 mu) (T2 std))|].
    split; [rewrite length_zip_with, !length_fmap, !length_zip_with; lia|].
    intros b mu_b std_b x_b Hmu Hstd Hx.
    rewrite lookup_zip_with, !list_lookup_fmap, !lookup_zip_with.
    rewrite Hmu, Hstd, Hx. simpl. f_equal. f_equal.
    apply log_prob_row.
    pose proof (actor_head_std_pos _ _ _ _ Hhead) as Hpos. simpl in Hpos.
    rewrite Forall_lookup in Hpos. by eapply Hpos.
  - intros obs a lp g' Hfw. rewrite forward_factor in Hfw.
    apply bind_Ok_inv in Hfw as (r & _ & Hfw). cbn [bind] in Hfw.
    by injection Hfw as _ <- _.
Qed.

(** C10: on a well-formed actor, [forward] with [with_logprob=True] on an
    unbatched observation vector raises in the log-probability branch (the
    density has been computed; summing the correction over axis 1 of a
    rank-1 tensor is an [IndexError]), the same call with
    [with_logprob=False] returns an action vector and no log-probability, and
    on a batch of observations the call with [with_logprob=True] succeeds
    with one log-probability per row. *)
Theorem forward_logprob_needs_batch self (obs_dim act_dim : nat) (v : list R)
    (deterministic : bool) g :
  Actor_wf self obs_dim act_dim -> length v = obs_dim ->
  forward self (T1 v) deterministic true g = Raise IndexError
  /\ (exists d x g' lp,
        pre_squash self (T1 v) deterministic g = Ok (d, T1 x, g')
        /\ Normal_log_prob d (T1 x) = Ok lp
        /\ tensor_sum_axis1
             (tensor_map (fun a => 2 * (ln 2 - a - softplus (-2 * a))) (T1 x))
           = Raise IndexError)
  /\ (exists a g',
        forward self (T1 v) deterministic false g = Ok ((T1 a, None), g')
        /\ length a = act_dim)
  /\ (forall rows, observation_input obs_dim (T2 rows) ->
        exists a lps g',
          forward self (T2 rows) deterministic true g = Ok ((T2 a, Some (T1 lps)), g')
          /\ length a = length rows /\ length lps = length rows).
Proof.
  intros Hwf Hv.
  destruct (pre_squash_ok self obs_dim act_dim (T1 v) deterministic g Hwf Hv)
    as (mu & std & x' & g' & Hhead & Hpre & Hmu & Hstd & Hx).
  destruct (Normal_log_prob_ok act_dim (T1 v) mu std x' Hmu Hstd Hx) as (lp & Hlp & _).
  apply tensor_like_T1_inv in Hx as (x & -> & Lx).
  split; [|split; [|split]].
  - rewrite forward_factor, Hpre. cbn [bind fst snd]. rewrite Hlp. done.
  - exists (MkNormal mu std), x, g', lp. done.
  - eexists _, g'. rewrite (forward_without_logprob _ _ _ _ _ _ _ Hpre).
    split; [done|]. by rewrite length_fmap.
  - intros rows Hrows.
    destruct (forward_logprob_batched self obs_dim act_dim rows deterministic g Hwf Hrows)
      as (mu2 & std2 & x2 & g2 & _ & _ & Lmu & Lstd & Lx2 & _ & Hfw).
    eexists _, _, g2. split; [exact Hfw|].
    split; [by rewrite length_fmap|].
    rewrite length_zip_with, !length_fmap, !length_zip_with. lia.
Qed.



(** On the deterministic path the generator is neither read nor advanced. *)
Lemma forward_deterministic_generator self obs (with_logprob : bool) g g0 :
  forward self obs true with_logprob g
  = (r <- forward self obs true with_logprob g0 ;; Ok (fst r, g)).
Proof.
  rewrite !forward_factor. unfold pre_squash.
  destruct (actor_head self obs) as [[mu std]|]; [|done]. cbn [bind fst snd].
  destruct (Normal_init mu std) as [d|]; [|done]. cbn [bind fst snd].
  destruct with_logprob; [|done].
  destruct (Normal_log_prob d mu) as [lp|]; [|done]. cbn [bind].
  destruct (tensor_sum_axis1 _) as [c|]; [|done]. cbn [bind].
  by destruct (tensor_zip_with Rminus (tensor_sum_last lp) c).
Qed.

(** C9: with [deterministic=True] the outcome of [forward] is the same
    whatever the state of the random generator, and the generator is left
    untouched: two calls on the same observation and parameters return the
    same action (and log-probability), computed from the mean [mu], or raise
    the same exception.  On a well-formed actor and observation the call does
    return. *)
Theorem forward_deterministic self obs (with_logprob : bool) g1 g2 :
  (forall r g1',
     forward self obs true with_logprob g1 = Ok (r, g1') ->
     g1' = g1 /\ forward self obs true with_logprob g2 = Ok (r, g2))
  /\ (forall e,
        forward self obs true with_logprob g1 = Raise e ->
        forward self obs true with_logprob g2 = Raise e)
  /\ (forall a lp g1',
        forward self obs true with_logprob g1 = Ok ((a, lp), g1') ->
        exists mu std,
          actor_head self obs = Ok (mu, std)
          /\ a = tensor_map (squash (act_min self) (act_max self)) mu)
  /\ (forall obs_dim act_dim,
        Actor_wf self obs_dim act_dim -> observation_input obs_dim obs ->
        exists a,
          forward self obs true false g1 = Ok ((a, None), g1)
          /\ forward self obs true false g2 = Ok ((a, None), g2)).
Proof.
  split; [|split; [|split]].
  - intros r g1' Hfw.
    rewrite (forward_deterministic_generator self obs with_logprob g1 g2) in Hfw.
    apply bind_Ok_inv in Hfw as ([r2 g2'] & Hfw2 & Heq).
    cbn [fst] in Heq. injection Heq as <- <-. split; [done|].
    rewrite (forward_deterministic_generator self obs with_logprob g2 g2), Hfw2.
    done.
  - intros e Hfw.
    rewrite (forward_deterministic_generator self obs with_logprob g2 g1), Hfw.
    done.
  - intros a lp g1' Hfw.
    apply forward_action_squash in Hfw as (d & x & Hpre & ->).
    unfold pre_squash in Hpre.
    apply bind_Ok_inv in Hpre as ([mu std] & Hhead & Hpre).
    apply bind_Ok_inv in Hpre as (d' & _ & Hpre). cbn [bind fst snd] in Hpre.
    injection Hpre as _ <- _. by exists mu, std.
  - intros obs_dim act_dim Hwf Hobs.
    destruct (pre_squash_ok self obs_dim act_dim obs true g1 Hwf Hobs)
      as (mu & std & x & g' & _ & Hpre & _).
    pose proof (forward_without_logprob _ _ _ _ _ _ _ Hpre) as Hfw.
    eexists. 
    rewrite (forward_deterministic_generator self obs false g1 g1), Hfw.
    rewrite (forward_deterministic_generator self obs false g2 g1), Hfw.
    done.
Qed.

End ActorForward.

(** ** The properties at a constructed actor *)


(** C3 at the same actor, on a batch of two observations. *)
Lemma forward_logprob_value_witness :
  let g0 := Rng (fun _ => 0%R) 0 in
  let rows := [[0; 0; 0]; [1; 1; 1]]%R in
  exists self g1 mu std x lps a g',
    SquashedGaussianMLPActor_init 3 2 [4; 4] nn_ReLU ((-1)%R, 1%R) g0 = Ok (self, g1)
    /\ pre_squash self (T2 rows) false g1 = Ok (MkNormal (T2 mu) (T2 std), T2 x, g')
    /\ forward self (T2 rows) false true g1 = Ok ((a, Some (T1 lps)), g')
    /\ forward self (T2 rows) false false g1 = Ok ((a, None), g')
    /\ length lps = 2.
Proof.
  intros g0 rows.
  destruct (Actor_init_ok 3 2 [4; 4] nn_ReLU ((-1)%R, 1%R) g0 4 eq_refl)
    as (self & g1 & Hinit & Hwf & _).
  destruct (forward_logprob_value self 3 2 rows false g1) as [Hval _].
  destruct Hval as (mu & std & x & lps & a & g' & _ & Hpre & Hfw & Hfw' & Hlen & _);
    [exact Hwf | split; [reflexivity | repeat constructor] |].
  exists self, g1, mu, std, x, lps, a, g'.
  split; [exact Hinit|]. split; [exact Hpre|]. split; [exact Hfw|].
  split; [exact Hfw' | exact Hlen].
Defined.

(** C9 at the same actor: two generators, one outcome. *)
Lemma forward_deterministic_witness :
  let g0 := Rng (fun _ => 0%R) 0 in
  let g2 := Rng (fun n => INR n) 7 in
  exists self g1 a,
    SquashedGaussianMLPActor_init 3 2 [4; 4] nn_ReLU ((-1)%R, 1%R) g0 = Ok (self, g1)
    /\ forward self (T1 [0; 0; 0]%R) true false g1 = Ok ((a, None), g1)
    /\ forward self (T1 [0; 0; 0]%R) true false g2 = Ok ((a, None), g2).
Proof.
  intros g0 g2.
  destruct (Actor_init_ok 3 2 [4; 4] nn_ReLU ((-1)%R, 1%R) g0 4 eq_refl)
    as (self & g1 & Hinit & Hwf & _).
  destruct (forward_deterministic self (T1 [0; 0; 0]%R) false g1 g2)
    as (Hsame & _ & _ & Htotal).
  destruct (Htotal 3 2 Hwf eq_refl) as (a & Hfw1 & _).
  destruct (Hsame _ _ Hfw1) as [_ Hfw2].
  exists self, g1, a. split; [exact Hinit|]. split; [exact Hfw1 | exact Hfw2].
Defined.

(** C10 at the same actor. *)
Lemma forward_logprob_needs_batch_witness :
  let g0 := Rng (fun _ => 0%R) 0 in
  exists self g1 a g',
    SquashedGaussianMLPActor_init 3 2 [4; 4] nn_ReLU ((-1)%R, 1%R) g0 = Ok (self, g1)
    /\ forward self (T1 [0; 0; 0]%R) false true g1 = Raise IndexError
    /\ forward self (T1 [0; 0; 0]%R) false false g1 = Ok ((T1 a, None), g')
    /\ length a = 2.
Proof.
  intros g0.
  destruct (Actor_init_ok 3 2 [4; 4] nn_ReLU ((-1)%R, 1%R) g0 4 eq_refl)
    as (self & g1 & Hinit & Hwf & _).
  destruct (forward_logprob_needs_batch self 3 2 [0; 0; 0]%R false g1 Hwf eq_refl)
    as (Hraise & _ & (a & g' & Hfw & Hlen) & _).
  exists self, g1, a, g'. split; [exact Hinit|]. split; [exact Hraise|].
  split; [exact Hfw | exact Hlen].
Defined.

(** * Further properties of the replay buffer *)

Lemma slot_owner_spec (n m i : nat) :
  0 < m -> i < n -> i < m ->
  slot_owner n m i < n /\ n <= slot_owner n m i + m /\ slot_owner n m i mod m = i.
Proof.
  intros Hm Hn Hi. unfold slot_owner.
  pose proof (Nat.mod_upper_bound (n - 1 - i) m ltac:(lia)) as Hr.
  pose proof (Nat.Div0.mod_le (n - 1 - i) m) as Hle.
  pose proof (Nat.div_mod_eq (n - 1 - i) m) as Hdiv.
  split; [lia|]. split; [lia|].
  replace (n - 1 - (n - 1 - i) mod m) with (i + (n - 1 - i) / m * m) by lia.
  rewrite Nat.Div0.mod_add. by apply Nat.mod_small.
Qed.

Lemma Forall_exists_Forall2 {A B : Type} (P : A -> B -> Prop) (l : list A) :
  Forall (fun x => exists y, P x y) l -> exists k, Forall2 P l k.
Proof.
  induction 1 as [|x l [y Hy] _ [k Hk]].
  - exists []. constructor.
  - exists (y :: k). by constructor.
Qed.

(** Gathered cells, read back as a field of the transitions that own the
    sampled slots. *)
Lemma gathered_field {A B : Type} (f : B -> A) (a o : list A) (indexes : list Z)
    (picks : list B) :
  Forall2 (fun i t => a !! Z.to_nat i = Some (f t)) indexes picks ->
  Some <$> o = (fun i => a !! Z.to_nat i) <$> indexes ->
  o = f <$> picks.
Proof.
  intros Hpick. revert o. induction Hpick as [|i t idx picks Hi _ IH]; intros o Ho.
  - by destruct o.
  - destruct o as [|x o]; [done|]. rewrite !fmap_cons in Ho.
    injection Ho as Hx Ho. rewrite Hi in Hx. injection Hx as ->.
    rewrite fmap_cons. f_equal. by apply IH.
Qed.

Section ReplayBufferMore.
Context {F : Type} (fzero : F).
Implicit Types (b : SACReplayBuffer F) (t : transition F).

(** What a filled slot holds: all five arrays agree on one stored
    transition, and it is among the most recent [max_size]. *)
Lemma ring_inv_slot (obs_dim act_dim : nat) (ts : list (transition F)) b (i : Z) :
  ring_inv obs_dim act_dim ts b -> (0 <= i < size b)%Z ->
  exists t,
    t ∈ drop (length ts - Z.to_nat (max_size b)) ts
    /\ obs_buf b !! Z.to_nat i = Some (t_obs t)
    /\ obs2_buf b !! Z.to_nat i = Some (t_next_obs t)
    /\ act_buf b !! Z.to_nat i = Some (t_act t)
    /\ rew_buf b !! Z.to_nat i = Some (t_rew t)
    /\ done_buf b !! Z.to_nat i = Some (t_done t).
Proof.
  intros (Hwf & Hptr & Hsize & Ro & Ro2 & Ra & Rr & Rd) Hi.
  pose proof Hwf as [].
  destruct (slot_owner_spec (length ts) (Z.to_nat (max_size b)) (Z.to_nat i))
    as (Hk & Hwin & Hmod); [lia..|].
  set (k := slot_owner (length ts) (Z.to_nat (max_size b)) (Z.to_nat i)) in *.
  destruct (lookup_lt_is_Some_2 ts k Hk) as [t Ht].
  exists t. split.
  - apply list_elem_of_lookup. exists (k - (length ts - Z.to_nat (max_size b))).
    rewrite lookup_drop. rewrite <- Ht. f_equal. lia.
  - rewrite <- Hmod.
    repeat split;
      [apply Ro | apply Ro2 | apply Ra | apply Rr | apply Rd];
      rewrite ?length_fmap; try lia; by rewrite list_lookup_fmap, Ht.
Qed.

(** X1: once at least one transition has been stored, [sample_batch(k)]
    with [k >= 1] cannot fail, and every batch it can return is made of [k]
    stored transitions taken from the most recent [max_size] ones: row [j] of
    [obs], [obs2], [act], [rew] and [done] are the five fields of one and the
    same transition.  Slots never written and transitions already overwritten
    are never returned. *)
Theorem sample_batch_stored_transitions (obs_dim act_dim m k : Z)
    (ts : list (transition F)) :
  (0 <= obs_dim)%Z -> (0 <= act_dim)%Z -> (0 < m)%Z -> (1 <= k)%Z ->
  ts <> [] ->
  Forall (transition_wf (Z.to_nat obs_dim) (Z.to_nat act_dim)) ts ->
  exists b0 b,
    SACReplayBuffer_init fzero obs_dim act_dim m = Ok b0
    /\ store_all b0 ts = Ok b
    /\ sample_batch b k <> []
    /\ forall r b', (r, b') ∈ sample_batch b k ->
         b' = b
         /\ exists picks : list (transition F),
              length picks = Z.to_nat k
              /\ Forall (fun t => t ∈ drop (length ts - Z.to_nat m) ts) picks
              /\ r = Ok (<["done" := T1 (t_done <$> picks)]>
                         (<["rew" := T1 (t_rew <$> picks)]>
                          (<["act" := T2 (t_act <$> picks)]>
                           (<["obs2" := T2 (t_next_obs <$> picks)]>
                            (<["obs" := T2 (t_obs <$> picks)]> ∅))))).
Proof.
  intros Ho Ha Hm Hk Hne Hts.
  destruct (store_all_ring_inv fzero obs_dim act_dim m ts Ho Ha Hm Hts)
    as (b0 & b & Hinit & Hrun & Hmax & Hinv).
  exists b0, b. split; [done|]. split; [done|].
  pose proof Hinv as (Hwf & _ & Hsize & _).
  assert (1 <= size b)%Z as Hs.
  { destruct ts; [done|]. simpl in Hsize. lia. }
  assert (sample_batch b k
          = (fun indexes => (batch_of b indexes, b))
              <$> tuples (seqZ 0 (size b)) (Z.to_nat k)) as Hsample.
  { unfold sample_batch, np_random_randint.
    rewrite !bool_decide_eq_false_2 by lia. by rewrite Z.sub_0_r. }
  split.
  - rewrite Hsample. intros Hnil. apply fmap_nil_inv in Hnil.
    apply (f_equal length) in Hnil. rewrite length_tuples, length_seqZ in Hnil.
    simpl in Hnil. pose proof (Nat.pow_nonzero (Z.to_nat (size b)) (Z.to_nat k)).
    lia.
  - intros r b' Hin. rewrite Hsample in Hin.
    apply list_elem_of_fmap in Hin as (indexes & Heq & Hidx).
    injection Heq as -> ->. split; [done|].
    apply elem_of_tuples in Hidx as [Hlen Hidx].
    assert (Forall (fun i => (0 <= i < size b)%Z) indexes) as Hrange.
    { eapply Forall_impl; [exact Hidx|]. intros i Hi. simpl in Hi.
      apply elem_of_seqZ in Hi. lia. }
    destruct (Forall_exists_Forall2
                (fun i t => t ∈ drop (length ts - Z.to_nat m) ts
                            /\ obs_buf b !! Z.to_nat i = Some (t_obs t)
                            /\ obs2_buf b !! Z.to_nat i = Some (t_next_obs t)
                            /\ act_buf b !! Z.to_nat i = Some (t_act t)
                            /\ rew_buf b !! Z.to_nat i = Some (t_rew t)
                            /\ done_buf b !! Z.to_nat i = Some (t_done t))
                indexes) as [picks Hpicks].
    { eapply Forall_impl; [exact Hrange|]. intros i Hi. simpl.
      rewrite <- Hmax. by eapply ring_inv_slot. }
    exists picks. split; [by rewrite <- (Forall2_length _ _ _ Hpicks)|].
    split.
    { apply Forall_lookup. intros j t Ht.
      destruct (Forall2_lookup_r _ _ _ _ _ Hpicks Ht) as (i & _ & Hin & _). done. }
    destruct (batch_of_ok _ _ b indexes Hwf Hrange)
      as (o & o2 & a & rw & d & -> & Go & Go2 & Ga & Gr & Gd).
    rewrite (gathered_field t_obs (obs_buf b) o indexes picks); [|
      eapply Forall2_impl; [exact Hpicks|]; by intros ?? (?&?&?&?&?&?) | done].
    rewrite (gathered_field t_next_obs (obs2_buf b) o2 indexes picks); [|
      eapply Forall2_impl; [exact Hpicks|]; by intros ?? (?&?&?&?&?&?) | done].
    rewrite (gathered_field t_act (act_buf b) a indexes picks); [|
      eapply Forall2_impl; [exact Hpicks|]; by intros ?? (?&?&?&?&?&?) | done].
    rewrite (gathered_field t_rew (rew_buf b) rw indexes picks); [|
      eapply Forall2_impl; [exact Hpicks|]; by intros ?? (?&?&?&?&?&?) | done].
    rewrite (gathered_field t_done (done_buf b) d indexes picks); [|
      eapply Forall2_impl; [exact Hpicks|]; by intros ?? (?&?&?&?&?&?) | done].
    done.
Qed.

(** X2: after [N] stores into a buffer of capacity [m >= 1] the write
    cursor is [N mod m] and the fill count is [min(N, m)]; so until the buffer
    is full the cursor equals the fill count (the next store appends), and
    from then on the fill count stays at [m] while the cursor keeps cycling. *)
Theorem store_cursor_position (obs_dim act_dim m : Z) (ts : list (transition F)) :
  (0 <= obs_dim)%Z -> (0 <= act_dim)%Z -> (0 < m)%Z ->
  Forall (transition_wf (Z.to_nat obs_dim) (Z.to_nat act_dim)) ts ->
  exists b0 b,
    SACReplayBuffer_init fzero obs_dim act_dim m = Ok b0
    /\ store_all b0 ts = Ok b
    /\ ptr b = (Z.of_nat (length ts) mod m)%Z
    /\ size b = Z.min (Z.of_nat (length ts)) m
    /\ max_size b = m
    /\ ((size b < m)%Z -> ptr b = size b)
    /\ ((m <= Z.of_nat (length ts))%Z -> size b = m).
Proof.
  intros Ho Ha Hm Hts.
  destruct (store_all_ring_inv fzero obs_dim act_dim m ts Ho Ha Hm Hts)
    as (b0 & b & Hinit & Hrun & Hmax & (_ & Hptr & Hsize & _)).
  exists b0, b. rewrite Hmax in *.
  do 5 (split; [done|]). split; [|lia].
  intros Hlt. rewrite Hptr, Hsize.
  rewrite Z.mod_small by lia. lia.
Qed.

(** X3: the constructor accepts exactly the non-negative dimensions and
    capacities; a negative one is refused with [np.zeros]'s [ValueError]. *)
Theorem init_succeeds_iff_nonnegative (obs_dim act_dim m : Z) :
  ((exists b, SACReplayBuffer_init fzero obs_dim act_dim m = Ok b)
   <-> (0 <= obs_dim /\ 0 <= act_dim /\ 0 <= m)%Z)
  /\ (forall b, SACReplayBuffer_init fzero obs_dim act_dim m = Ok b ->
        ptr b = 0%Z /\ size b = 0%Z /\ max_size b = m
        /\ length (rew_buf b) = Z.to_nat m)
  /\ ((obs_dim < 0 \/ act_dim < 0 \/ m < 0)%Z ->
      SACReplayBuffer_init fzero obs_dim act_dim m = Raise ValueError).
Proof.
  assert ((obs_dim < 0 \/ act_dim < 0 \/ m < 0)%Z ->
          SACReplayBuffer_init fzero obs_dim act_dim m = Raise ValueError) as Hneg.
  { intros Hcase. unfold SACReplayBuffer_init, np_zeros2, np_zeros1. simpl.
    repeat case_bool_decide; simpl; try done; lia. }
  split; [|split; [|exact Hneg]].
  - split.
    + intros [b Hb].
      destruct (decide (0 <= obs_dim /\ 0 <= act_dim /\ 0 <= m)%Z) as [|Hn]; [done|].
      rewrite Hneg in Hb by lia. done.
    + intros (Ho & Ha & Hm). eexists. by apply init_ok.
  - intros b Hb.
    destruct (decide (0 <= obs_dim /\ 0 <= act_dim /\ 0 <= m)%Z) as [(Ho & Ha & Hm)|Hn].
    + rewrite init_ok in Hb by done. injection Hb as <-. simpl.
      by rewrite length_replicate.
    + rewrite Hneg in Hb by lia. done.
Qed.

(** X4: a buffer of capacity 0 is created without complaint but cannot be
    used: every [store] raises [IndexError] (there is no slot 0) and every
    [sample_batch(k)] with [k >= 1] raises [ValueError]. *)
Theorem capacity_zero_unusable (obs_dim act_dim : Z) :
  (0 <= obs_dim)%Z -> (0 <= act_dim)%Z ->
  exists b0,
    SACReplayBuffer_init fzero obs_dim act_dim 0 = Ok b0
    /\ (forall obs act rew next_obs done,
          store b0 obs act rew next_obs done = Raise IndexError)
    /\ (forall k, (1 <= k)%Z -> sample_batch b0 k = [(Raise ValueError, b0)]).
Proof.
  intros Ho Ha. eexists. split; [by apply init_ok|]. split.
  - intros obs act rew next_obs done. done.
  - intros k Hk. unfold sample_batch, np_random_randint. simpl.
    rewrite !bool_decide_eq_false_2 by lia. done.
Qed.

Lemma broadcast_row_fit (d : nat) (v : list F) :
  length v = d \/ length v = 1 ->
  exists r, broadcast_row d v = Ok r /\ length r = d
            /\ (length v = d -> r = v)
            /\ (forall x, v = [x] -> r = replicate d x).
Proof.
  intros Hfit. unfold broadcast_row. case_bool_decide as Hd.
  - exists v. repeat split; [done..|]. intros x ->. simpl in Hd. by subst d.
  - destruct Hfit as [|H1]; [done|].
    destruct v as [|x [|y v]]; [done| |done].
    exists (replicate d x). rewrite length_replicate.
    repeat split; [done|]. by intros x' [= ->].
Qed.

Lemma broadcast_row_unfit (d : nat) (v : list F) :
  ~ (length v = d \/ length v = 1) -> broadcast_row d v = Raise ValueError.
Proof.
  intros Hfit. unfold broadcast_row. rewrite bool_decide_eq_false_2 by tauto.
  destruct v as [|x [|y v]]; [done| |done]. simpl in Hfit. tauto.
Qed.

Lemma setitem_row_broadcast (d : nat) (a : list (list F)) (i : Z) (v : list F) :
  (0 <= i < Z.of_nat (length a))%Z -> Forall (fun r => length r = d) a ->
  setitem_row a i v = (r <- broadcast_row d v ;; Ok (<[Z.to_nat i := r]> a)).
Proof.
  intros Hi Hw. unfold setitem_row. rewrite py_index_nonneg by done. simpl.
  destruct (lookup_lt_is_Some_2 a (Z.to_nat i)) as [old Hold]; [lia|].
  rewrite Hold. rewrite Forall_lookup in Hw. by rewrite (Hw _ _ Hold).
Qed.

(** X5: [store] checks the width of its three vectors against the buffer's
    rows the way numpy assignment does.  A vector of the row width is written
    as it is and a one-element vector is repeated across the row; with any
    other width the call raises [ValueError]. *)
Theorem store_width_check (obs_dim act_dim : nat) b t :
  buffer_wf obs_dim act_dim b ->
  let fits d (v : list F) := length v = d \/ length v = 1 in
  (fits obs_dim (t_obs t) /\ fits obs_dim (t_next_obs t) /\ fits act_dim (t_act t) ->
   exists b',
     store b (t_obs t) (t_act t) (t_rew t) (t_next_obs t) (t_done t) = Ok b'
     /\ buffer_wf obs_dim act_dim b'
     /\ (forall x, t_obs t = [x] ->
          obs_buf b' !! Z.to_nat (ptr b) = Some (replicate obs_dim x))
     /\ (length (t_obs t) = obs_dim ->
          obs_buf b' !! Z.to_nat (ptr b) = Some (t_obs t)))
  /\ (~ (fits obs_dim (t_obs t) /\ fits obs_dim (t_next_obs t)
         /\ fits act_dim (t_act t)) ->
      store b (t_obs t) (t_act t) (t_rew t) (t_next_obs t) (t_done t)
      = Raise ValueError).
Proof.
  intros Hwf fits. pose proof Hwf as []. unfold store.
  rewrite (setitem_row_broadcast obs_dim) by (done || lia).
  rewrite (setitem_row_broadcast obs_dim (obs2_buf b)) by (done || lia).
  rewrite (setitem_row_broadcast act_dim (act_buf b)) by (done || lia).
  rewrite !setitem_ok by lia.
  unfold py_mod. rewrite bool_decide_eq_false_2 by lia.
  split.
  - intros (Fo & Fo2 & Fa).
    destruct (broadcast_row_fit obs_dim (t_obs t) Fo) as (o & -> & Lo & Eo & Bo).
    destruct (broadcast_row_fit obs_dim (t_next_obs t) Fo2) as (o2 & -> & Lo2 & _).
    destruct (broadcast_row_fit act_dim (t_act t) Fa) as (a & -> & La & _).
    simpl. eexists. split; [done|]. split; [|split].
    + constructor; simpl; rewrite ?length_insert; try done.
      * apply Z.mod_pos_bound. lia.
      * lia.
      * by apply Forall_insert_width.
      * by apply Forall_insert_width.
      * by apply Forall_insert_width.
    + intros x Hx. simpl. rewrite list_lookup_insert_eq by lia. by rewrite (Bo x Hx).
    + intros Hlen. simpl. rewrite list_lookup_insert_eq by lia. by rewrite (Eo Hlen).
  - intros Hno.
    destruct (decide (fits obs_dim (t_obs t))) as [Fo|Fo];
      [|by rewrite (broadcast_row_unfit _ _ Fo)].
    destruct (broadcast_row_fit obs_dim (t_obs t) Fo) as (o & -> & _). simpl.
    destruct (decide (fits obs_dim (t_next_obs t))) as [Fo2|Fo2];
      [|by rewrite (broadcast_row_unfit _ _ Fo2)].
    destruct (broadcast_row_fit obs_dim (t_next_obs t) Fo2) as (o2 & -> & _). simpl.
    destruct (decide (fits act_dim (t_act t))) as [Fa|Fa];
      [tauto | by rewrite (broadcast_row_unfit _ _ Fa)].
Qed.

End ReplayBufferMore.

(** * Further properties of the networks *)

(** ** Parameter counts *)







(** ** Freezing and thawing *)

#[export] Instance Linear_compose : NnModuleCompose Linear.
Proof. split. intros f h l. done. Qed.

#[export] Instance Sequential_compose : NnModuleCompose Sequential.
Proof.
  split. intros f h layers. simpl. rewrite <- list_fmap_compose.
  apply list_fmap_ext. intros i [l|a] _; done.
Qed.

#[export] Instance Actor_compose : NnModuleCompose SquashedGaussianMLPActor.
Proof.
  split. intros f h a.
  cbn [map_parameters Actor_module net mu_layer log_std_layer
       LOG_STD_MAX LOG_STD_MIN act_min act_max].
  by rewrite !map_parameters_compose.
Qed.

#[export] Instance MLPQFunction_compose : NnModuleCompose MLPQFunction.
Proof.
  split. intros f h m. cbn [map_parameters MLPQFunction_module q].
  f_equal. apply (map_parameters_compose (M:=Sequential)).
Qed.

#[export] Instance MLPActorCritic_compose : NnModuleCompose MLPActorCritic.
Proof.
  split. intros f h m.
  cbn [map_parameters MLPActorCritic_module pi q1 q2 q1targ q2targ].
  by rewrite !map_parameters_compose.
Qed.

Section FreezeCompose.
Context {M : Type} `{NnModuleLaws M} `{!NnModuleCompose M}.

Lemma freeze_thaw_twice (module : M) (first second : bool) :
  freeze_thaw_parameters (freeze_thaw_parameters module first) second
  = freeze_thaw_parameters module second.
Proof.
  unfold freeze_thaw_parameters.
  destruct first, second; by rewrite map_parameters_compose.
Qed.

(** X7: of two successive [freeze_thaw_parameters] calls on a module only
    the last one counts; in particular freezing is idempotent, and thawing a
    frozen module whose parameters were all trainable (as every freshly built
    module's are) gives the module back unchanged. *)
Theorem freeze_thaw_last_call_wins (module : M) (first second : bool) :
  freeze_thaw_parameters (freeze_thaw_parameters module first) second
  = freeze_thaw_parameters module second
  /\ freeze_thaw_parameters (freeze_thaw_parameters module true) true
     = freeze_thaw_parameters module true
  /\ (all_requires_grad true module ->
      freeze_thaw_parameters (freeze_thaw_parameters module true) false = module)
  /\ count_vars (freeze_thaw_parameters module first) = count_vars module.
Proof.
  split; [apply freeze_thaw_twice|]. split; [apply freeze_thaw_twice|]. split.
  - intros Hall. rewrite freeze_thaw_twice. by apply freeze_thaw_fixed.
  - unfold count_vars. rewrite freeze_thaw_parameters_spec, <- list_fmap_compose.
    done.
Qed.

End FreezeCompose.

(** Only the tensors of a linear layer enter its forward pass. *)
Lemma Linear_forward_flags (f : nn_Parameter -> nn_Parameter) (l : Linear)
    (x : tensor R) :
  (forall p, data (f p) = data p) ->
  Linear_forward (Linear_map_parameters f l) x = Linear_forward l x.
Proof.
  intros Hf. unfold Linear_forward, Linear_map_parameters. simpl.
  rewrite !Hf. done.
Qed.

Lemma Sequential_forward_flags (f : nn_Parameter -> nn_Parameter)
    (layers : Sequential) (x : tensor R) :
  (forall p, data (f p) = data p) ->
  Sequential_forward (map_parameters f layers) x = Sequential_forward layers x.
Proof.
  intros Hf. revert x. induction layers as [|[l|a] rest IH]; intros x; [done| |].
  - cbn [map_parameters Sequential_module fmap list_fmap
         layer_map_parameters Sequential_forward layer_forward].
    change (@map_parameters Linear Linear_module f l) with (Linear_map_parameters f l).
    rewrite (Linear_forward_flags f l x Hf).
    destruct (Linear_forward l x) as [y|]; [|done]. cbn [bind]. apply IH.
  - cbn [map_parameters Sequential_module fmap list_fmap
         layer_map_parameters Sequential_forward layer_forward bind]. apply IH.
Qed.

(** X8: freezing or thawing changes no computed value: the critic's and the
    actor's forward passes of the module after [freeze_thaw_parameters] are
    those of the module before, on every input. *)
Theorem freeze_thaw_keeps_forward (freeze : bool) :
  (forall (qf : MLPQFunction) (obs act : tensor R),
     MLPQFunction_forward (freeze_thaw_parameters qf freeze) obs act
     = MLPQFunction_forward qf obs act)
  /\ (forall (a : SquashedGaussianMLPActor) (obs : tensor R)
             (deterministic with_logprob : bool) (g : torch_rng),
        forward (freeze_thaw_parameters a freeze) obs deterministic with_logprob g
        = forward a obs deterministic with_logprob g).
Proof.
  split.
  - intros qf obs act. unfold MLPQFunction_forward, freeze_thaw_parameters.
    destruct freeze; cbn [map_parameters MLPQFunction_module q];
      destruct (torch_cat_last obs act) as [x|]; cbn [bind]; try done;
      by rewrite (Sequential_forward_flags _ (q qf) x).
  - intros a obs deterministic with_logprob g.
    unfold forward, freeze_thaw_parameters.
    destruct freeze;
      cbn [map_parameters Actor_module net mu_layer log_std_layer
           LOG_STD_MAX LOG_STD_MIN act_min act_max];
      rewrite (Sequential_forward_flags _ (net a) obs) by done;
      (destruct (Sequential_forward (net a) obs) as [net_out|]; [|done]);
      cbn [bind];
      change (@map_parameters Linear Linear_module ?f ?l)
        with (Linear_map_parameters f l);
      rewrite !Linear_forward_flags by done; done.
Qed.

(** ** The critic's forward pass *)

Lemma squeeze_rows_width_one (r : list (list R)) :
  Forall (fun row => length row = 1) r ->
  torch_squeeze_last (T2 r) = T1 (hd 0%R <$> r).
Proof. intros Hr. simpl. by rewrite bool_decide_eq_true_2. Qed.

Lemma torch_cat_last_T1 (u v : list R) :
  torch_cat_last (T1 u) (T1 v) = Ok (T1 (u ++ v)).
Proof. by destruct u. Qed.

Lemma torch_cat_last_T2 (r s : list (list R)) :
  torch_cat_last (T2 r) (T2 s)
  = if bool_decide (length r = length s) then Ok (T2 (zip_with app r s))
    else Raise RuntimeError.
Proof. done. Qed.

Lemma zip_with_app_width (d1 d2 : nat) (r s : list (list R)) :
  Forall (fun row => length row = d1) r -> Forall (fun row => length row = d2) s ->
  Forall (fun row => length row = d1 + d2) (zip_with app r s).
Proof.
  intros Hr Hs. apply Forall_lookup. intros i row Hrow.
  apply lookup_zip_with_Some in Hrow as (u & v & -> & Hu & Hv).
  rewrite Forall_lookup in Hr. rewrite Forall_lookup in Hs.
  by rewrite length_app, (Hr _ _ Hu), (Hs _ _ Hv).
Qed.

(** X9: a critic whose network maps [obs_dim + act_dim] inputs to one output
    returns one scalar for an unbatched observation-action pair and one
    value per row for a batch (the trailing axis of size 1 is squeezed
    away); observation and action batches of different sizes, and rank-0
    inputs, raise [RuntimeError]. *)
Theorem MLPQFunction_forward_shape (qf : MLPQFunction) (obs_dim act_dim : nat) :
  Sequential_maps (q qf) (obs_dim + act_dim) 1 ->
  (forall o a : list R, length o = obs_dim -> length a = act_dim ->
     exists x, MLPQFunction_forward qf (T1 o) (T1 a) = Ok (T0 x))
  /\ (forall os acts : list (list R),
        length os = length acts ->
        Forall (fun row => length row = obs_dim) os ->
        Forall (fun row => length row = act_dim) acts ->
        exists qs, MLPQFunction_forward qf (T2 os) (T2 acts) = Ok (T1 qs)
                   /\ length qs = length os)
  /\ (forall os acts : list (list R),
        length os <> length acts ->
        MLPQFunction_forward qf (T2 os) (T2 acts) = Raise RuntimeError)
  /\ (forall (x : R) (t : tensor R),
        MLPQFunction_forward qf (T0 x) t = Raise RuntimeError
        /\ MLPQFunction_forward qf t (T0 x) = Raise RuntimeError).
Proof.
  intros Hmaps. split; [|split; [|split]].
  - intros o a Ho Ha. unfold MLPQFunction_forward.
    rewrite torch_cat_last_T1. cbn [bind].
    destruct (Sequential_forward_ok (q qf) (obs_dim + act_dim) 1
                (T1 (o ++ a)) (T1 (o ++ a)) Hmaps) as (y & -> & Hy).
    { simpl. rewrite length_app. lia. }
    cbn [bind]. apply tensor_like_T1_inv in Hy as (u & -> & Hu).
    destruct u as [|x [|x' u]]; [done| |done]. by exists x.
  - intros os acts Hlen Hos Hacts. unfold MLPQFunction_forward.
    rewrite torch_cat_last_T2, bool_decide_eq_true_2 by done. cbn [bind].
    destruct (Sequential_forward_ok (q qf) (obs_dim + act_dim) 1
                (T2 (zip_with app os acts)) (T2 (zip_with app os acts)) Hmaps)
      as (y & -> & Hy).
    { simpl. split; [done|]. by apply zip_with_app_width. }
    cbn [bind]. apply tensor_like_T2_inv in Hy as (r & -> & Lr & Wr).
    rewrite squeeze_rows_width_one by done.
    eexists. split; [done|]. rewrite length_fmap, Lr, length_zip_with. lia.
  - intros os acts Hlen. unfold MLPQFunction_forward.
    by rewrite torch_cat_last_T2, bool_decide_eq_false_2.
  - intros x t. split; [done|]. by destruct t as [|[|]|].
Qed.

(** ** Construction of the ensemble, and [act] *)

Lemma py_getitem_0 {A : Type} (l : list A) :
  py_getitem l 0 = match head l with
                   | Some x => Ok x
                   | None => Raise IndexError
                   end.
Proof. by destruct l. Qed.

Lemma Linear_wf_flags (f : nn_Parameter -> nn_Parameter) (l : Linear) :
  (forall p, data (f p) = data p) -> Linear_wf l ->
  Linear_wf (Linear_map_parameters f l).
Proof.
  intros Hf (w & b & Hw & Hb & Hrest). exists w, b. simpl.
  rewrite !Hf. done.
Qed.

Lemma Sequential_maps_flags (f : nn_Parameter -> nn_Parameter)
    (layers : Sequential) (a b : nat) :
  (forall p, data (f p) = data p) -> Sequential_maps layers a b ->
  Sequential_maps (map_parameters f layers) a b.
Proof.
  intros Hf. revert a. induction layers as [|[l|act] rest IH]; intros a; [done| |].
  - intros (Hwf & Hin & Hrest). cbn. split; [by apply Linear_wf_flags|].
    split; [done|]. by apply IH.
  - intros Hrest. cbn. by apply IH.
Qed.

Lemma MLPQFunction_init_maps (obs_dim act_dim : nat) (hidden_sizes : list nat)
    (activation : R -> R) (g g' : torch_rng) (qf : MLPQFunction) :
  MLPQFunction_init obs_dim act_dim hidden_sizes activation g = Ok (qf, g') ->
  Sequential_maps (q qf) (obs_dim + act_dim) 1.
Proof.
  intros Hinit.
  destruct (MLPQFunction_init_ok obs_dim act_dim hidden_sizes activation g)
    as (qf' & g'' & Hok & _ & _ & Hmaps).
  rewrite Hok in Hinit. by injection Hinit as <- <-.
Qed.

(** What a successful construction tells about its arguments and result. *)
Lemma MLPActorCritic_init_inv (observation_space : gmap string Box)
    (action_space : Box) (hidden_sizes : list nat) (activation : R -> R)
    (g g' : torch_rng) (ac : MLPActorCritic) :
  MLPActorCritic_init observation_space action_space hidden_sizes activation g
    = Ok (ac, g') ->
  exists ospace obs_dim act_dim lo hi,
    observation_space !! "observation" = Some ospace
    /\ head (shape ospace) = Some obs_dim
    /\ head (shape action_space) = Some act_dim
    /\ head (low action_space) = Some lo
    /\ head (high action_space) = Some hi
    /\ hidden_sizes <> []
    /\ Actor_wf (pi ac) obs_dim act_dim
    /\ act_min (pi ac) = lo /\ act_max (pi ac) = hi
    /\ Forall (fun c => Sequential_maps (q c) (obs_dim + act_dim) 1)
              [q1 ac; q2 ac; q1targ ac; q2targ ac].
Proof.
  unfold MLPActorCritic_init, dict_getitem. intros Hinit.
  destruct (observation_space !! "observation") as [ospace|] eqn:Hobs; [|done].
  cbn [bind] in Hinit. rewrite !py_getitem_0 in Hinit.
  destruct (head (shape ospace)) as [obs_dim|] eqn:Hod; [|done].
  cbn [bind] in Hinit.
  destruct (head (shape action_space)) as [act_dim|] eqn:Had; [|done].
  cbn [bind] in Hinit.
  destruct (head (low action_space)) as [lo|] eqn:Hlo; [|done].
  cbn [bind] in Hinit.
  destruct (head (high action_space)) as [hi|] eqn:Hhi; [|done].
  cbn [bind] in Hinit.
  apply bind_Ok_inv in Hinit as ([a g1] & Ha & Hinit).
  apply bind_Ok_inv in Hinit as ([c1 g2] & H1 & Hinit).
  apply bind_Ok_inv in Hinit as ([c2 g3] & H2 & Hinit).
  apply bind_Ok_inv in Hinit as ([t1 g4] & H3 & Hinit).
  apply bind_Ok_inv in Hinit as ([t2 g5] & H4 & Hinit).
  cbn [fst snd] in Hinit. injection Hinit as <- <-.
  exists ospace, obs_dim, act_dim, lo, hi. do 5 (split; [done|]).
  split.
  { intros ->. by rewrite Actor_init_no_hidden in Ha. }
  apply all_requires_grad_Actor_inv in Ha as (_ & Hwf & _ & Hmin & Hmax).
  cbn [pi q1 q2 q1targ q2targ]. do 3 (split; [done|]).
  apply MLPQFunction_init_maps in H1, H2, H3, H4.
  repeat constructor; try done.
  - by apply (Sequential_maps_flags (set_requires_grad false)).
  - by apply (Sequential_maps_flags (set_requires_grad false)).
Qed.



(** X11: [MLPActorCritic.__init__] succeeds exactly when the observation
    space has an ["observation"] entry with a non-empty shape, the action
    space has a non-empty shape and non-empty bounds, and there is at least
    one hidden layer; a missing ["observation"] entry raises [KeyError], any
    of the other defects raises [IndexError]. *)
Theorem MLPActorCritic_init_succeeds_iff (observation_space : gmap string Box)
    (action_space : Box) (hidden_sizes : list nat) (activation : R -> R)
    (g : torch_rng) :
  ((exists ac g',
      MLPActorCritic_init observation_space action_space hidden_sizes activation g
      = Ok (ac, g'))
   <-> (exists ospace,
          observation_space !! "observation" = Some ospace
          /\ shape ospace <> [] /\ shape action_space <> []
          /\ low action_space <> [] /\ high action_space <> []
          /\ hidden_sizes <> []))
  /\ (observation_space !! "observation" = None ->
      MLPActorCritic_init observation_space action_space hidden_sizes activation g
      = Raise KeyError)
  /\ (forall ospace,
        observation_space !! "observation" = Some ospace ->
        shape ospace = [] \/ shape action_space = []
        \/ low action_space = [] \/ high action_space = []
        \/ hidden_sizes = [] ->
        MLPActorCritic_init observation_space action_space hidden_sizes activation g
        = Raise IndexError).
Proof.
  assert (forall ospace,
            observation_space !! "observation" = Some ospace ->
            shape ospace = [] \/ shape action_space = []
            \/ low action_space = [] \/ high action_space = []
            \/ hidden_sizes = [] ->
            MLPActorCritic_init observation_space action_space hidden_sizes
              activation g = Raise IndexError) as Hbad.
  { intros ospace Hobs Hcase. unfold MLPActorCritic_init, dict_getitem.
    rewrite Hobs. cbn [bind]. rewrite !py_getitem_0.
    destruct (shape ospace) as [|od ?]; [done|]. cbn [head bind].
    destruct (shape action_space) as [|ad ?]; [done|]. cbn [head bind].
    destruct (low action_space) as [|lo ?]; [done|]. cbn [head bind].
    destruct (high action_space) as [|hi ?]; [done|]. cbn [head bind].
    destruct Hcase as [|[|[|[|Hhs]]]]; try done.
    by rewrite Hhs, Actor_init_no_hidden. }
  split; [|split; [|exact Hbad]].
  - split.
    + intros (ac & g' & Hinit).
      apply MLPActorCritic_init_inv in Hinit
        as (ospace & obs_dim & act_dim & lo & hi & Hobs & Hod & Had & Hlo & Hhi
            & Hhs & _).
      exists ospace. split; [done|].
      repeat split; try done; intros Hnil; by rewrite Hnil in *.
    + intros (ospace & Hobs & Hs & Has & Hlo & Hhi & Hhs).
      unfold MLPActorCritic_init, dict_getitem. rewrite Hobs. cbn [bind].
      rewrite !py_getitem_0.
      destruct (shape ospace) as [|od ?]; [done|]. cbn [head bind].
      destruct (shape action_space) as [|ad ?]; [done|]. cbn [head bind].
      destruct (low action_space) as [|lo ?]; [done|]. cbn [head bind].
      destruct (high action_space) as [|hi ?]; [done|]. cbn [head bind].
      destruct (last hidden_sizes) as [h|] eqn:Hlast;
        [|by apply last_None in Hlast].
      destruct (Actor_init_ok od ad hidden_sizes activation (lo, hi) g h Hlast)
        as (a & g1 & -> & _). cbn [bind snd].
      destruct (MLPQFunction_init_ok od ad hidden_sizes activation g1)
        as (c1 & g2 & -> & _). cbn [bind snd].
      destruct (MLPQFunction_init_ok od ad hidden_sizes activation g2)
        as (c2 & g3 & -> & _). cbn [bind snd].
      destruct (MLPQFunction_init_ok od ad hidden_sizes activation g3)
        as (t1 & g4 & -> & _). cbn [bind snd].
      destruct (MLPQFunction_init_ok od ad hidden_sizes activation g4)
        as (t2 & g5 & -> & _). cbn [bind snd].
      eauto.
  - intros Hobs. unfold MLPActorCritic_init, dict_getitem. by rewrite Hobs.
Qed.

(** X12: of the two spaces the constructor reads only
    [observation_space["observation"].shape[0]], [action_space.shape[0]],
    [action_space.low[0]] and [action_space.high[0]]: spaces that agree on
    these four values give the same ensemble, whatever the other dimensions
    and bounds are, and the actor's range is [(low[0], high[0])]. *)
Theorem MLPActorCritic_init_reads_first_entries
    (observation_space observation_space' : gmap string Box)
    (action_space action_space' : Box) (hidden_sizes : list nat)
    (activation : R -> R) (g : torch_rng) (ospace ospace' : Box) :
  observation_space !! "observation" = Some ospace ->
  observation_space' !! "observation" = Some ospace' ->
  head (shape ospace) = head (shape ospace') ->
  head (shape action_space) = head (shape action_space') ->
  head (low action_space) = head (low action_space') ->
  head (high action_space) = head (high action_space') ->
  MLPActorCritic_init observation_space action_space hidden_sizes activation g
  = MLPActorCritic_init observation_space' action_space' hidden_sizes activation g
  /\ (forall ac g',
        MLPActorCritic_init observation_space action_space hidden_sizes activation g
        = Ok (ac, g') ->
        head (low action_space) = Some (act_min (pi ac))
        /\ head (high action_space) = Some (act_max (pi ac))).
Proof.
  intros Hobs Hobs' Hs Has Hlo Hhi. split.
  - unfold MLPActorCritic_init, dict_getitem. rewrite Hobs, Hobs'. cbn [bind].
    rewrite !py_getitem_0. by rewrite Hs, Has, Hlo, Hhi.
  - intros ac g' Hinit.
    apply MLPActorCritic_init_inv in Hinit
      as (o & obs_dim & act_dim & lo & hi & _ & _ & _ & Hl & Hh & _ & _
          & Hmin & Hmax & _).
    by rewrite Hl, Hh, Hmin, Hmax.
Qed.

(** ** More on the actor's forward pass *)

Lemma mapM_raise {A B : Type} (f : A -> result B) (e : py_error) (l : list A) :
  (forall x, f x = Raise e \/ exists y, f x = Ok y) ->
  Exists (fun x => f x = Raise e) l -> mapM f l = Raise e.
Proof.
  intros Hf Hex. induction Hex as [x l Hx | x l _ IH]; simpl.
  - by rewrite Hx.
  - destruct (Hf x) as [-> | [y ->]]; [done|]. simpl. by rewrite IH.
Qed.

Lemma linear_row_cases (l : Linear) (w : list (list R)) (b x : list R) :
  length w = out_features l ->
  Forall (fun r => length r = in_features l) w ->
  length b = out_features l ->
  linear_row l w b x = Raise RuntimeError \/ exists y, linear_row l w b x = Ok y.
Proof.
  intros Hw Ww Hb. destruct (decide (length x = in_features l)) as [Hx|Hx].
  - right. destruct (linear_row_ok l w b x) as (y & Hy & _); eauto.
  - left. unfold linear_row. by rewrite bool_decide_eq_false_2.
Qed.

Lemma Linear_forward_wrong (l : Linear) (t : tensor R) :
  Linear_wf l -> wrong_width (in_features l) t ->
  Linear_forward l t = Raise RuntimeError.
Proof.
  intros (w & b & Hdw & Hdb & Hw & Ww & Hb) Ht. unfold Linear_forward.
  rewrite Hdw, Hdb. destruct t as [x|v|rows]; [done| |].
  - simpl in Ht. unfold linear_row. by rewrite bool_decide_eq_false_2.
  - simpl in Ht. rewrite (mapM_raise _ RuntimeError); [done| |].
    + intros x. by apply linear_row_cases.
    + eapply Exists_impl; [exact Ht|]. intros r Hr. simpl.
      unfold linear_row. by rewrite bool_decide_eq_false_2.
Qed.

Lemma tensor_map_wrong (f : R -> R) (d : nat) (t : tensor R) :
  wrong_width d t -> wrong_width d (tensor_map f t).
Proof.
  destruct t as [x|v|rows]; simpl; [done| |].
  - by rewrite length_fmap.
  - intros Hex. apply Exists_fmap. eapply Exists_impl; [exact Hex|].
    intros r Hr. simpl. by rewrite length_fmap.
Qed.

Lemma Sequential_forward_wrong (layers : Sequential) (a b : nat) (t : tensor R) :
  Sequential_maps layers a b -> wrong_width a t ->
  Sequential_forward layers t = Raise RuntimeError
  \/ exists y, Sequential_forward layers t = Ok y /\ wrong_width b y.
Proof.
  revert a t. induction layers as [|[l|f] rest IH]; intros a t; simpl.
  - intros <- Ht. right. by exists t.
  - intros (Hwf & <- & Hrest) Ht. left.
    by rewrite (Linear_forward_wrong l t Hwf Ht).
  - intros Hrest Ht. apply (IH a); [done|]. by apply tensor_map_wrong.
Qed.

Section ActorMore.
Local Open Scope R_scope.
Implicit Types (self : SquashedGaussianMLPActor) (obs : tensor R) (g : torch_rng).

(** X13: an observation of the wrong width never gets through a well-formed
    actor: whatever the flags, [forward] raises [RuntimeError] on a vector
    whose length is not the actor's input width, on a batch containing such
    a row, and on a rank-0 tensor. *)
Theorem forward_wrong_width self (obs_dim act_dim : nat) obs
    (deterministic with_logprob : bool) g :
  Actor_wf self obs_dim act_dim -> wrong_width obs_dim obs ->
  forward self obs deterministic with_logprob g = Raise RuntimeError.
Proof.
  intros (h & Hnet & Wmu & Imu & _) Hobs. unfold forward.
  destruct (Sequential_forward_wrong (net self) obs_dim h obs Hnet Hobs)
    as [-> | (y & -> & Hy)]; [done|].
  cbn [bind]. rewrite <- Imu in Hy.
  by rewrite (Linear_forward_wrong (mu_layer self) y Wmu Hy).
Qed.

Lemma exp_le (x y : R) : x <= y -> exp x <= exp y.
Proof.
  intros [Hlt | ->]; [|lra]. left. by apply exp_increasing.
Qed.

(** X14: the standard deviation of the policy distribution is the
    exponential of the clamped log-std, so on an actor built by
    [SquashedGaussianMLPActor.__init__] every entry of the scale lies between
    [exp(-20)] and [exp(2)], and is positive, whatever the network outputs. *)
Theorem policy_scale_clamped (obs_dim act_dim : nat) (hidden_sizes : list nat)
    (activation : R -> R) (act_range : R * R) (g0 g1 : torch_rng) self obs
    (deterministic : bool) g (d : Normal) (x : tensor R) (g' : torch_rng) :
  SquashedGaussianMLPActor_init obs_dim act_dim hidden_sizes activation act_range g0
    = Ok (self, g1) ->
  pre_squash self obs deterministic g = Ok (d, x, g') ->
  tensor_all (fun s => exp (-20) <= s <= exp 2 /\ 0 < s) (scale d)
  /\ (deterministic = true -> x = loc d /\ g' = g).
Proof.
  intros Hinit Hpre.
  assert (LOG_STD_MIN self = -20 /\ LOG_STD_MAX self = 2) as [Hmin Hmax].
  { destruct (last hidden_sizes) as [h|] eqn:Hlast.
    - destruct (Actor_init_ok obs_dim act_dim hidden_sizes activation act_range
                  g0 h Hlast) as (a' & g'' & Hok & _ & _ & _ & _ & _ & Hlo & Hhi).
      rewrite Hok in Hinit. by injection Hinit as <- <-.
    - apply last_None in Hlast as ->. by rewrite Actor_init_no_hidden in Hinit. }
  unfold pre_squash, actor_head in Hpre.
  apply bind_Ok_inv in Hpre as ([mu std] & Hhead & Hpre).
  apply bind_Ok_inv in Hhead as (net_out & _ & Hhead).
  apply bind_Ok_inv in Hhead as (mu' & _ & Hhead).
  apply bind_Ok_inv in Hhead as (ls & _ & Hhead).
  injection Hhead as <- <-.
  apply bind_Ok_inv in Hpre as (d' & Hd & Hpre). cbn [fst snd] in Hd, Hpre.
  unfold Normal_init in Hd. destruct (same_shape _ _); [|done].
  injection Hd as <-.
  apply bind_Ok_inv in Hpre as ([x' g2] & Hx & Hpre). cbn [fst snd] in Hpre.
  injection Hpre as <- <- <-. cbn [scale loc]. split.
  - rewrite tensor_map_map. apply tensor_all_map. intros v.
    pose proof (clamp_bounds (LOG_STD_MIN self) (LOG_STD_MAX self) v) as Hc.
    rewrite Hmin, Hmax in *. destruct Hc as [Hlo Hhi]; [lra|].
    split; [split; by apply exp_le | apply exp_pos].
  - intros ->. by injection Hx as <- <-.
Qed.

(** X15: the correction subtracted in the log-probability branch is the
    logarithm of the derivative of [tanh]: on a well-formed actor and a
    batch, each returned log-probability is the summed Gaussian log-density
    of the pre-squash action minus the sum of [ln(1 - tanh(x_i)^2)] over its
    components. *)
Theorem forward_logprob_tanh_jacobian self (obs_dim act_dim : nat)
    (rows : list (list R)) (deterministic : bool) g :
  Actor_wf self obs_dim act_dim -> observation_input obs_dim (T2 rows) ->
  exists mu std x lps a g',
    pre_squash self (T2 rows) deterministic g
      = Ok (MkNormal (T2 mu) (T2 std), T2 x, g')
    /\ forward self (T2 rows) deterministic true g = Ok ((a, Some (T1 lps)), g')
    /\ length lps = length rows
    /\ forall (b : nat) (mu_b std_b x_b : list R),
         mu !! b = Some mu_b -> std !! b = Some std_b -> x !! b = Some x_b ->
         lps !! b
         = Some (gaussian_log_density mu_b std_b x_b
                 - Rsum ((fun v => ln (1 - tanh v ^ 2)) <$> x_b)).
Proof.
  intros Hwf Hobs.
  destruct (forward_logprob_batched self obs_dim act_dim rows deterministic g Hwf Hobs)
    as (mu & std & x & g' & Hhead & Hpre & Lmu & Lstd & Lx & Wx & Hfw).
  eexists mu, std, x, _, _, g'.
  split; [exact Hpre|]. split; [exact Hfw|].
  split; [rewrite length_zip_with, !length_fmap, !length_zip_with; lia|].
  intros b mu_b std_b x_b Hmu Hstd Hx.
  rewrite lookup_zip_with, !list_lookup_fmap, !lookup_zip_with.
  rewrite Hmu, Hstd, Hx. simpl. f_equal. f_equal.
  - apply log_prob_row.
    pose proof (actor_head_std_pos _ _ _ _ Hhead) as Hpos. simpl in Hpos.
    rewrite Forall_lookup in Hpos. by eapply Hpos.
  - f_equal. apply list_fmap_ext. intros i v _. apply tanh_correction_formula.
Qed.


End ActorMore.

(** ** Parameter counts of the ensemble *)




(** * The further properties at concrete inputs *)


(** X1 at a capacity-3 buffer that has seen five stores, batches of two. *)
Lemma sample_batch_stored_transitions_witness :
  let mk (n : Z) := Transition [n; n] [n] n [(n + 100)%Z; (n + 100)%Z] 0%Z in
  let ts := mk <$> [1%Z; 2%Z; 3%Z; 4%Z; 5%Z] in
  exists b0 b,
    SACReplayBuffer_init 0%Z 2 1 3 = Ok b0
    /\ store_all b0 ts = Ok b
    /\ sample_batch b 2 <> [].
Proof.
  intros mk ts.
  destruct (@sample_batch_stored_transitions Z 0%Z 2 1 3 2 ts)
    as (b0 & b & Hinit & Hrun & Hne & _);
    [lia | lia | lia | lia | discriminate | repeat constructor |].
  exists b0, b. split; [exact Hinit|]. split; [exact Hrun | exact Hne].
Defined.

(** X2 at the same buffer: five stores into capacity 3 leave the cursor at
    [5 mod 3]. *)
Lemma store_cursor_position_witness :
  let mk (n : Z) := Transition [n; n] [n] n [(n + 100)%Z; (n + 100)%Z] 0%Z in
  let ts := mk <$> [1%Z; 2%Z; 3%Z; 4%Z; 5%Z] in
  exists b0 b,
    SACReplayBuffer_init 0%Z 2 1 3 = Ok b0
    /\ store_all b0 ts = Ok b
    /\ ptr b = 2%Z /\ size b = 3%Z.
Proof.
  intros mk ts.
  destruct (@store_cursor_position Z 0%Z 2 1 3 ts)
    as (b0 & b & Hinit & Hrun & Hptr & Hsize & _);
    [lia | lia | lia | repeat constructor |].
  exists b0, b. split; [exact Hinit|]. split; [exact Hrun|].
  split; [exact Hptr | exact Hsize].
Defined.

(** X3 at the dimensions [(2, 1, 3)] and at a negative capacity. *)
Lemma init_succeeds_iff_nonnegative_witness :
  (exists b : SACReplayBuffer Z, SACReplayBuffer_init 0%Z 2 1 3 = Ok b)
  /\ @SACReplayBuffer_init Z 0%Z 2 1 (-1) = Raise ValueError.
Proof.
  split.
  - destruct (@init_succeeds_iff_nonnegative Z 0%Z 2 1 3) as [[_ Hok] _].
    apply Hok. lia.
  - destruct (@init_succeeds_iff_nonnegative Z 0%Z 2 1 (-1)) as (_ & _ & Hneg).
    apply Hneg. lia.
Defined.

(** X4 at the dimensions [(2, 1)]. *)
Lemma capacity_zero_unusable_witness :
  exists b0 : SACReplayBuffer Z,
    SACReplayBuffer_init 0%Z 2 1 0 = Ok b0
    /\ store b0 [1; 1]%Z [1]%Z 1%Z [2; 2]%Z 0%Z = Raise IndexError
    /\ sample_batch b0 32 = [(Raise ValueError, b0)].
Proof.
  destruct (@capacity_zero_unusable Z 0%Z 2 1) as (b0 & Hinit & Hstore & Hsample);
    [lia | lia |].
  exists b0. split; [exact Hinit|]. split; [apply Hstore | apply Hsample; lia].
Defined.

(** X5 at a fresh capacity-3 buffer: a three-element observation does not
    fit rows of width 2. *)
Lemma store_width_check_witness :
  let b : SACReplayBuffer Z :=
    Buffer [[0; 0]; [0; 0]; [0; 0]]%Z [[0; 0]; [0; 0]; [0; 0]]%Z
           [[0]; [0]; [0]]%Z [0; 0; 0]%Z [0; 0; 0]%Z 0 0 3 in
  buffer_wf 2 1 b
  /\ store b [1; 2; 3]%Z [1]%Z 1%Z [2; 2]%Z 0%Z = Raise ValueError.
Proof.
  intros b.
  assert (buffer_wf 2 1 b) as Hwf.
  { constructor; simpl; try lia; repeat constructor. }
  split; [exact Hwf|].
  destruct (store_width_check 2 1 b
              (Transition [1; 2; 3]%Z [1]%Z 1%Z [2; 2]%Z 0%Z) Hwf) as [_ Hbad].
  apply Hbad. simpl. lia.
Defined.

(** X7 at a critic with one trainable linear layer. *)
Lemma freeze_thaw_last_call_wins_witness :
  let qf := MkQ [LinearLayer (MkLinear 1 1 (Param (T2 [[1%R]]) true)
                                           (Param (T1 [0%R]) true));
                 ActivationLayer nn_Identity] in
  all_requires_grad true qf
  /\ freeze_thaw_parameters (freeze_thaw_parameters qf true) false = qf.
Proof.
  intros qf.
  assert (all_requires_grad true qf) as Hall by (repeat constructor).
  split; [exact Hall|].
  destruct (freeze_thaw_last_call_wins qf true false) as (_ & _ & Hthaw & _).
  exact (Hthaw Hall).
Defined.

(** X9 at the critic built for 3 observation and 2 action dimensions. *)
Lemma MLPQFunction_forward_shape_witness :
  let g0 := Rng (fun _ => 0%R) 0 in
  exists qf g1 x,
    MLPQFunction_init 3 2 [4; 4] nn_ReLU g0 = Ok (qf, g1)
    /\ MLPQFunction_forward qf (T1 [0; 0; 0]%R) (T1 [0; 0]%R) = Ok (T0 x).
Proof.
  intros g0.
  destruct (MLPQFunction_init_ok 3 2 [4; 4] nn_ReLU g0)
    as (qf & g1 & Hinit & _ & _ & Hmaps).
  destruct (MLPQFunction_forward_shape qf 3 2 Hmaps) as (Hvec & _).
  destruct (Hvec [0; 0; 0]%R [0; 0]%R eq_refl eq_refl) as [x Hx].
  exists qf, g1, x. split; [exact Hinit | exact Hx].
Defined.


(** X11 at the same spaces, and at an empty tuple of hidden sizes. *)
Lemma MLPActorCritic_init_succeeds_iff_witness :
  let observation_space : gmap string Box :=
    {[ "observation" := MkBox [3] [] [] ]} in
  let action_space := MkBox [2] [(-1)%R; (-1)%R] [1%R; 1%R] in
  let g := Rng (fun _ => 0%R) 0 in
  (exists ac g1,
     MLPActorCritic_init observation_space action_space [4; 4] nn_ReLU g = Ok (ac, g1))
  /\ MLPActorCritic_init observation_space action_space [] nn_ReLU g
     = Raise IndexError
  /\ MLPActorCritic_init ∅ action_space [4; 4] nn_ReLU g = Raise KeyError.
Proof.
  intros observation_space action_space g. split; [|split].
  - destruct (MLPActorCritic_init_succeeds_iff observation_space action_space
                [4; 4] nn_ReLU g) as [[_ Hok] _].
    apply Hok. exists (MkBox [3] [] []). split; [reflexivity|].
    repeat split; discriminate.
  - destruct (MLPActorCritic_init_succeeds_iff observation_space action_space
                [] nn_ReLU g) as (_ & _ & Hbad).
    apply (Hbad (MkBox [3] [] [])); [reflexivity|]. by do 4 right.
  - destruct (MLPActorCritic_init_succeeds_iff ∅ action_space [4; 4] nn_ReLU g)
      as (_ & Hkey & _).
    apply Hkey. reflexivity.
Defined.

(** X12 at two action spaces that differ from the second bound on. *)
Lemma MLPActorCritic_init_reads_first_entries_witness :
  let observation_space : gmap string Box :=
    {[ "observation" := MkBox [3] [] [] ]} in
  let action_space := MkBox [2] [(-1)%R; (-1)%R] [1%R; 1%R] in
  let action_space' := MkBox [2; 7] [(-1)%R; (-5)%R] [1%R; 9%R] in
  let g := Rng (fun _ => 0%R) 0 in
  MLPActorCritic_init observation_space action_space [4; 4] nn_ReLU g
  = MLPActorCritic_init observation_space action_space' [4; 4] nn_ReLU g.
Proof.
  intros observation_space action_space action_space' g.
  destruct (MLPActorCritic_init_reads_first_entries
              observation_space observation_space action_space action_space'
              [4; 4] nn_ReLU g (MkBox [3] [] []) (MkBox [3] [] []))
    as [Heq _]; [reflexivity..|].
  exact Heq.
Defined.

(** X13 at the actor built for 3 observation dimensions, on a vector of 4. *)
Lemma forward_wrong_width_witness :
  let g0 := Rng (fun _ => 0%R) 0 in
  exists self g1,
    SquashedGaussianMLPActor_init 3 2 [4; 4] nn_ReLU ((-1)%R, 1%R) g0 = Ok (self, g1)
    /\ forward self (T1 [0; 0; 0; 0]%R) true false g1 = Raise RuntimeError.
Proof.
  intros g0.
  destruct (Actor_init_ok 3 2 [4; 4] nn_ReLU ((-1)%R, 1%R) g0 4 eq_refl)
    as (self & g1 & Hinit & Hwf & _).
  exists self, g1. split; [exact Hinit|].
  apply (forward_wrong_width self 3 2); [exact Hwf|]. simpl. lia.
Defined.

(** X14 at the same actor and an observation of its width. *)
Lemma policy_scale_clamped_witness :
  let g0 := Rng (fun _ => 0%R) 0 in
  exists self g1 d x g',
    SquashedGaussianMLPActor_init 3 2 [4; 4] nn_ReLU ((-1)%R, 1%R) g0 = Ok (self, g1)
    /\ pre_squash self (T1 [0; 0; 0]%R) false g1 = Ok (d, x, g')
    /\ tensor_all (fun s => (exp (-20) <= s <= exp 2 /\ 0 < s)%R) (scale d).
Proof.
  intros g0.
  destruct (Actor_init_ok 3 2 [4; 4] nn_ReLU ((-1)%R, 1%R) g0 4 eq_refl)
    as (self & g1 & Hinit & Hwf & _).
  destruct (pre_squash_ok self 3 2 (T1 [0; 0; 0]%R) false g1 Hwf eq_refl)
    as (mu & std & x & g' & _ & Hpre & _).
  destruct (policy_scale_clamped _ _ _ _ _ _ _ _ _ _ _ _ _ _ Hinit Hpre) as [Hall _].
  exists self, g1, (MkNormal mu std), x, g'.
  split; [exact Hinit|]. split; [exact Hpre | exact Hall].
Defined.

(** X15 at the same actor, on a batch of two observations. *)
Lemma forward_logprob_tanh_jacobian_witness :
  let g0 := Rng (fun _ => 0%R) 0 in
  let rows := [[0; 0; 0]; [1; 1; 1]]%R in
  exists self g1 lps a g',
    SquashedGaussianMLPActor_init 3 2 [4; 4] nn_ReLU ((-1)%R, 1%R) g0 = Ok (self, g1)
    /\ forward self (T2 rows) false true g1 = Ok ((a, Some (T1 lps)), g')
    /\ length lps = 2.
Proof.
  intros g0 rows.
  destruct (Actor_init_ok 3 2 [4; 4] nn_ReLU ((-1)%R, 1%R) g0 4 eq_refl)
    as (self & g1 & Hinit & Hwf & _).
  destruct (forward_logprob_tanh_jacobian self 3 2 rows false g1)
    as (mu & std & x & lps & a & g' & _ & Hfw & Hlen & _);
    [exact Hwf | split; [reflexivity | repeat constructor] |].
  exists self, g1, lps, a, g'. split; [exact Hinit|]. split; [exact Hfw | exact Hlen].
Defined.


